(** * The agent action pipeline of the Tether computer-use dashboard

    A shallow embedding of the dashboard component ([handleTaskSubmit],
    [processAction], [executeAction], [emergencyStop]), of the approval
    dialog ([SafetyModal]: countdown and [getRiskLevel]) and of the
    hooks [useGemini] ([denormalizeCoordinates], [parseFunctionCall],
    [sendRequest]) and [useVNC] ([sendMouseEvent], [sendKeyboardEvent],
    [disconnect], [takeScreenshot]).

    Conventions of the embedding.
    - JavaScript strings are [string]s of ASCII characters.
    - JSON values carry integer numbers ([JNum] of a [Z]); the numbers
      that [denormalizeCoordinates] computes with are IEEE-754 binary64
      values ([PrimFloat.float]), as in JavaScript.
    - React state ([uiSession], [currentScreenshot], the [timeLeft] of
      the mounted dialog) and the refs of [useVNC] are fields of one
      [World] record that every handler transforms.
    - The calls that leave the program (the RFB object of noVNC, the
      generative model) are recorded in the world or taken as inputs. *)

From Stdlib Require Import ZArith List String Ascii Bool Lia.
From Stdlib Require Import DecimalString QArith Qround.
From Stdlib Require PrimFloat FloatOps Uint63.
From Stdlib Require Import SpecFloat.
Import ListNotations.

Set Warnings "-register-all".

Local Open Scope string_scope.
Local Open Scope Z_scope.

(** ** JavaScript values and strings *)

Notation "a === b" := (String.eqb a b) (at level 70, no associativity).

Inductive JSValue : Type :=
| JNull
| JBool (b : bool)
| JNum (n : Z)
| JStr (s : string)
| JArr (items : list JSValue)
| JObj (fields : list (string * JSValue)).

(** An object literal: the properties in insertion order. *)
Definition JSObject : Type := list (string * JSValue).

(** [obj.key]: [None] stands for [undefined]. *)
Fixpoint getProp (key : string) (obj : JSObject) : option JSValue :=
  match obj with
  | [] => None
  | (k, v) :: rest => if String.eqb k key then Some v else getProp key rest
  end.

Definition string_of_Z (n : Z) : string :=
  NilZero.string_of_int (Z.to_int n).

Definition lowerChar (c : ascii) : ascii :=
  let n := nat_of_ascii c in
  if (andb (Nat.leb 65 n) (Nat.leb n 90)) then ascii_of_nat (n + 32) else c.

(** [String.prototype.toLowerCase] on ASCII text. *)
Fixpoint toLowerCase (s : string) : string :=
  match s with
  | EmptyString => EmptyString
  | String c rest => String (lowerChar c) (toLowerCase rest)
  end.

(** [s.includes(sub)]. *)
Fixpoint includes (s sub : string) : bool :=
  String.prefix sub s ||
  match s with
  | EmptyString => false
  | String _ rest => includes rest sub
  end.

Definition dquote : ascii := ascii_of_nat 34.

Definition hexDigit (n : nat) : ascii :=
  ascii_of_nat (if Nat.ltb n 10 then 48 + n else 87 + n).

(** The escape that [JSON.stringify] writes for one character. *)
Definition escapeChar (c : ascii) : string :=
  let n := nat_of_ascii c in
  if Nat.eqb n 34 then String "\" (String dquote "")
  else if Nat.eqb n 92 then "\\"
  else if Nat.eqb n 8 then "\b"
  else if Nat.eqb n 12 then "\f"
  else if Nat.eqb n 10 then "\n"
  else if Nat.eqb n 13 then "\r"
  else if Nat.eqb n 9 then "\t"
  else if Nat.ltb n 32 then
    "\u00" ++ String (hexDigit (n / 16)) (String (hexDigit (n mod 16)) "")
  else String c "".

Fixpoint escapeString (s : string) : string :=
  match s with
  | EmptyString => EmptyString
  | String c rest => escapeChar c ++ escapeString rest
  end.

Definition quoteJSON (s : string) : string :=
  String dquote (escapeString s ++ String dquote "").

(** [JSON.stringify(v)] without indentation. *)
Fixpoint JSON_stringify (v : JSValue) : string :=
  match v with
  | JNull => "null"
  | JBool true => "true"
  | JBool false => "false"
  | JNum n => string_of_Z n
  | JStr s => quoteJSON s
  | JArr items =>
      let fix elems (l : list JSValue) : string :=
        match l with
        | [] => ""
        | [x] => JSON_stringify x
        | x :: rest => JSON_stringify x ++ "," ++ elems rest
        end in
      "[" ++ elems items ++ "]"
  | JObj fields =>
      let fix members (l : list (string * JSValue)) : string :=
        match l with
        | [] => ""
        | [(k, x)] => quoteJSON k ++ ":" ++ JSON_stringify x
        | (k, x) :: rest =>
            quoteJSON k ++ ":" ++ JSON_stringify x ++ "," ++ members rest
        end in
      "{" ++ members fields ++ "}"
  end.

(** The conversion of a template literal, [`${v}`]. *)
Fixpoint toText (v : JSValue) : string :=
  match v with
  | JNull => "null"
  | JBool true => "true"
  | JBool false => "false"
  | JNum n => string_of_Z n
  | JStr s => s
  | JArr items =>
      let fix elems (l : list JSValue) : string :=
        match l with
        | [] => ""
        | [x] => match x with JNull => "" | _ => toText x end
        | x :: rest =>
            match x with JNull => "" | _ => toText x end ++ "," ++ elems rest
        end in
      elems items
  | JObj _ => "[object Object]"
  end.

Definition interpolate (v : option JSValue) : string :=
  match v with
  | None => "undefined"
  | Some x => toText x
  end.

(** ** Types of the application (the [types] module) *)

Inductive Decision : Type := allowed | require_confirmation | blocked.

Record SafetyDecision : Type := {
  explanation : string;
  decision : Decision
}.

Record ComputerAction : Type := {
  name : string;
  args : JSObject;
  safetyDecision : option SafetyDecision
}.

Definition Decision_eqb (a b : Decision) : bool :=
  match a, b with
  | allowed, allowed => true
  | require_confirmation, require_confirmation => true
  | blocked, blocked => true
  | _, _ => false
  end.

(** [action.safetyDecision?.decision === d] *)
Definition decisionIs (action : ComputerAction) (d : Decision) : bool :=
  match safetyDecision action with
  | Some sd => Decision_eqb (decision sd) d
  | None => false
  end.

(** ** Risk classifier ([getRiskLevel] of the approval dialog) *)

Inductive RiskLevel : Type := low | medium | high.

Definition highRiskActions : list string :=
  [ "delete"; "remove"; "format"; "wipe"; "shutdown"; "restart";
    "payment"; "transfer"; "send"; "delete_file"; "delete_folder" ].

Definition actionStr (action : ComputerAction) : string :=
  toLowerCase (name action ++ " " ++ JSON_stringify (JObj (args action))).

Definition getRiskLevel (action : ComputerAction) : RiskLevel :=
  let isHighRisk :=
    existsb (fun risk => includes (actionStr action) risk) highRiskActions in
  if isHighRisk then high else medium.

(** ** Coordinate denormalization ([useGemini]) *)

(** A JavaScript number holding the integer [n] (exact below 2^53). *)
Definition Number_ofZ (n : Z) : PrimFloat.float :=
  if n <? 0 then PrimFloat.opp (PrimFloat.of_uint63 (Uint63.of_Z (- n)))
  else PrimFloat.of_uint63 (Uint63.of_Z n).

(** The integer a JavaScript number holds, when it holds one. *)
Definition Number_toZ (v : PrimFloat.float) : option Z :=
  match FloatOps.Prim2SF v with
  | S754_zero _ => Some 0
  | S754_finite s m e =>
      let n := if s then Z.neg m else Z.pos m in
      if 0 <=? e then Some (n * 2 ^ e)
      else if (n mod 2 ^ (- e)) =? 0 then Some (n / 2 ^ (- e)) else None
  | _ => None
  end.

(** [Math.round]: the nearest integer, a tie going towards +infinity;
    infinities and NaN are returned as they are. *)
Definition Math_round (v : PrimFloat.float) : PrimFloat.float :=
  match FloatOps.Prim2SF v with
  | S754_finite s m e =>
      if 0 <=? e then v
      else
        let n := if s then Z.neg m else Z.pos m in
        let r := (2 * n + 2 ^ (- e)) / 2 ^ (- e + 1) in
        if andb (r =? 0) s then PrimFloat.neg_zero else Number_ofZ r
  | _ => v
  end.

Record Point : Type := { px : PrimFloat.float; py : PrimFloat.float }.

Definition denormalizeCoordinates
    (x y screenWidth screenHeight : PrimFloat.float) : Point :=
  {| px := Math_round (PrimFloat.mul (PrimFloat.div x (Number_ofZ 1000)) screenWidth);
     py := Math_round (PrimFloat.mul (PrimFloat.div y (Number_ofZ 1000)) screenHeight) |}.

(** What the specification asks of one axis, on exact rationals:
    [round (x / 1000 * W)], a tie going up as in [Math.round]. *)
Definition exactRound (q : Q) : Z := Qfloor (q + (1 # 2))%Q.

Definition exactPixel (x w : Z) : Z :=
  exactRound (inject_Z x / inject_Z 1000 * inject_Z w)%Q.

Example stringify_click :
  JSON_stringify (JObj [("x", JNum 500); ("y", JNum (-3)); ("t", JStr "a\b")])
  = "{" ++ quoteJSON "x" ++ ":500," ++ quoteJSON "y" ++ ":-3,"
        ++ quoteJSON "t" ++ ":" ++ String dquote ("a\\b" ++ String dquote "}").
Proof. vm_compute. reflexivity. Qed.

Example denorm_500 :
  let p := denormalizeCoordinates (Number_ofZ 500) (Number_ofZ 500)
             (Number_ofZ 1440) (Number_ofZ 900) in
  (Number_toZ (px p), Number_toZ (py p)) = (Some 720, Some 450).
Proof. vm_compute. reflexivity. Qed.

Example denorm_tie :
  let p := denormalizeCoordinates (Number_ofZ 145) (Number_ofZ 565)
             (Number_ofZ 100) (Number_ofZ 900) in
  (Number_toZ (px p), Number_toZ (py p), exactPixel 145 100, exactPixel 565 900)
  = (Some 14, Some 508, 15, 509).
Proof. vm_compute. reflexivity. Qed.

(** ** Activity stream, tasks and sessions *)

Module AIActionType.
Inductive t : Type := observation | reasoning | action | safety_check | error.
End AIActionType.

Module TaskStatus.
Inductive t : Type := pending | in_progress | completed | failed | cancelled.
End TaskStatus.

Module SessionStatus.
Inductive t : Type := idle | thinking | acting | error | stopped.
End SessionStatus.

Module ConnectionStatus.
Inductive t : Type := disconnected | connecting | connected | error.
End ConnectionStatus.

Module Priority.
Inductive t : Type := low | medium | high.
End Priority.

(** One entry of the activity stream.  [id] is the prefix followed by
    the reading of the clock, as in [`error-${Date.now()}`]. *)
Record AIAction : Type := {
  id : string;
  type : AIActionType.t;
  content : string;
  entry_args : option JSObject;
  timestamp : Z
}.

Record AgentTask : Type := {
  task_id : string;
  sessionId : string;
  description : string;
  status : TaskStatus.t;
  priority : Priority.t;
  createdAt : Z;
  completedAt : option Z;
  actions : list AIAction;
  task_error : option string
}.

Record AgentSession : Type := {
  session_id : string;
  session_name : string;
  session_status : SessionStatus.t
}.

(** The approval request held in [uiSession.safetyModal].  Its two
    callbacks close over [action] only, so they are the functions
    [onApprove] and [onDeny] below applied to the request. *)
Record SafetyModalType : Type := {
  modal_action : ComputerAction;
  screenshot : option string;
  modal_reasoning : string;
  timeout : Z
}.

Record UISession : Type := {
  currentSession : option AgentSession;
  isVNCConnected : bool;
  vncConnectionStatus : ConnectionStatus.t;
  agentThinking : bool;
  safetyModal : option SafetyModalType;
  taskQueue : list AgentTask;
  actionStream : list AIAction
}.

(** ** The remote session ([useVNC]) *)

(** A call on the hook: [sendMouseEvent({x, y, buttonMask})] or
    [sendKeyboardEvent({keysym, pressed})].  A coordinate read from
    [action.args] may be any value, or missing. *)
Inductive VNCCall : Type :=
| MouseEvent (x y : option JSValue) (buttonMask : Z)
| KeyboardEvent (keysym : Z) (pressed : bool).

Record JSError : Type := { error_name : string; message : string }.

(** [String(error)], that is [Error.prototype.toString]: the message
    alone when the name is empty, the name alone when the message is
    empty, and otherwise the two around a colon. *)
Definition String_of_error (e : JSError) : string :=
  if error_name e === "" then message e
  else if message e === "" then error_name e
  else error_name e ++ ": " ++ message e.

(** The noVNC client behind [rfbRef]: for each command, the transport
    error its [sendMouse] / [sendKey] raises, if any. *)
Record RFB : Type := { transportError : VNCCall -> option JSError }.

Record GeminiConfig : Type := { apiKey : string; modelId : string }.

(** ** The state every handler works on *)

Record World : Type := {
  uiSession : UISession;
  currentScreenshot : option string;
  geminiConfig : GeminiConfig;
  (** [timeLeft] of the mounted approval dialog; [None] when no dialog
      is mounted *)
  timeLeft : option Z;
  (** [useVNC]: the client, what the canvas would export, the status *)
  rfbRef : option RFB;
  canvasRef : option string;
  connectionStatus : ConnectionStatus.t;
  (** [Date.now()], in milliseconds *)
  now : Z;
  (** pending [setTimeout] captures scheduled by the executor *)
  captureTimers : nat;
  (** observers: the invocations of [executeAction], the calls made on
      the hook, and the commands the client accepted *)
  executorCalls : list ComputerAction;
  vncCalls : list VNCCall;
  rfbSent : list VNCCall
}.

Definition with_uiSession (f : UISession -> UISession) (w : World) : World :=
  {| uiSession := f (uiSession w); currentScreenshot := currentScreenshot w;
     geminiConfig := geminiConfig w; timeLeft := timeLeft w;
     rfbRef := rfbRef w; canvasRef := canvasRef w;
     connectionStatus := connectionStatus w; now := now w;
     captureTimers := captureTimers w; executorCalls := executorCalls w;
     vncCalls := vncCalls w; rfbSent := rfbSent w |}.

Definition with_currentScreenshot (s : option string) (w : World) : World :=
  {| uiSession := uiSession w; currentScreenshot := s;
     geminiConfig := geminiConfig w; timeLeft := timeLeft w;
     rfbRef := rfbRef w; canvasRef := canvasRef w;
     connectionStatus := connectionStatus w; now := now w;
     captureTimers := captureTimers w; executorCalls := executorCalls w;
     vncCalls := vncCalls w; rfbSent := rfbSent w |}.

Definition with_timeLeft (t : option Z) (w : World) : World :=
  {| uiSession := uiSession w; currentScreenshot := currentScreenshot w;
     geminiConfig := geminiConfig w; timeLeft := t;
     rfbRef := rfbRef w; canvasRef := canvasRef w;
     connectionStatus := connectionStatus w; now := now w;
     captureTimers := captureTimers w; executorCalls := executorCalls w;
     vncCalls := vncCalls w; rfbSent := rfbSent w |}.

Definition with_rfb (r : option RFB) (c : ConnectionStatus.t) (w : World) : World :=
  {| uiSession := uiSession w; currentScreenshot := currentScreenshot w;
     geminiConfig := geminiConfig w; timeLeft := timeLeft w;
     rfbRef := r; canvasRef := canvasRef w;
     connectionStatus := c; now := now w;
     captureTimers := captureTimers w; executorCalls := executorCalls w;
     vncCalls := vncCalls w; rfbSent := rfbSent w |}.

Definition with_now (t : Z) (w : World) : World :=
  {| uiSession := uiSession w; currentScreenshot := currentScreenshot w;
     geminiConfig := geminiConfig w; timeLeft := timeLeft w;
     rfbRef := rfbRef w; canvasRef := canvasRef w;
     connectionStatus := connectionStatus w; now := t;
     captureTimers := captureTimers w; executorCalls := executorCalls w;
     vncCalls := vncCalls w; rfbSent := rfbSent w |}.

Definition with_captureTimers (n : nat) (w : World) : World :=
  {| uiSession := uiSession w; currentScreenshot := currentScreenshot w;
     geminiConfig := geminiConfig w; timeLeft := timeLeft w;
     rfbRef := rfbRef w; canvasRef := canvasRef w;
     connectionStatus := connectionStatus w; now := now w;
     captureTimers := n; executorCalls := executorCalls w;
     vncCalls := vncCalls w; rfbSent := rfbSent w |}.

Definition with_executorCalls (l : list ComputerAction) (w : World) : World :=
  {| uiSession := uiSession w; currentScreenshot := currentScreenshot w;
     geminiConfig := geminiConfig w; timeLeft := timeLeft w;
     rfbRef := rfbRef w; canvasRef := canvasRef w;
     connectionStatus := connectionStatus w; now := now w;
     captureTimers := captureTimers w; executorCalls := l;
     vncCalls := vncCalls w; rfbSent := rfbSent w |}.

Definition with_vncCalls (l : list VNCCall) (w : World) : World :=
  {| uiSession := uiSession w; currentScreenshot := currentScreenshot w;
     geminiConfig := geminiConfig w; timeLeft := timeLeft w;
     rfbRef := rfbRef w; canvasRef := canvasRef w;
     connectionStatus := connectionStatus w; now := now w;
     captureTimers := captureTimers w; executorCalls := executorCalls w;
     vncCalls := l; rfbSent := rfbSent w |}.

Definition with_rfbSent (l : list VNCCall) (w : World) : World :=
  {| uiSession := uiSession w; currentScreenshot := currentScreenshot w;
     geminiConfig := geminiConfig w; timeLeft := timeLeft w;
     rfbRef := rfbRef w; canvasRef := canvasRef w;
     connectionStatus := connectionStatus w; now := now w;
     captureTimers := captureTimers w; executorCalls := executorCalls w;
     vncCalls := vncCalls w; rfbSent := l |}.

(** ** Handlers: state and exceptions *)

Inductive Outcome (A : Type) : Type :=
| Returned (a : A)
| Thrown (e : JSError).
Arguments Returned {A} a.
Arguments Thrown {A} e.

Definition M (A : Type) : Type := World -> Outcome A * World.

Definition ret {A} (a : A) : M A := fun w => (Returned a, w).

Definition bind {A B} (m : M A) (k : A -> M B) : M B :=
  fun w =>
    match m w with
    | (Returned a, w') => k a w'
    | (Thrown e, w') => (Thrown e, w')
    end.

Definition throw {A} (e : JSError) : M A := fun w => (Thrown e, w).

(** [try { body } catch (error) { handler }] *)
Definition tryCatch {A} (body : M A) (handler : JSError -> M A) : M A :=
  fun w =>
    match body w with
    | (Returned a, w') => (Returned a, w')
    | (Thrown e, w') => handler e w'
    end.

Definition get {A} (f : World -> A) : M A := fun w => (Returned (f w), w).

Definition modify (f : World -> World) : M unit := fun w => (Returned tt, f w).

Declare Scope handler_scope.
Delimit Scope handler_scope with handler.
Notation "x <- m ;; k" := (bind m (fun x => k))
  (at level 61, m at next level, right associativity) : handler_scope.
Notation "m ;; k" := (bind m (fun _ => k))
  (at level 61, right associativity) : handler_scope.
Local Open Scope handler_scope.

(** The world a handler leaves, whether it returned or threw. *)
Definition after {A} (m : M A) (w : World) : World := snd (m w).

Fixpoint forEach {A} (l : list A) (body : A -> M unit) : M unit :=
  match l with
  | [] => ret tt
  | a :: rest => body a ;; forEach rest body
  end.

(** ** [useVNC]: commands to the remote session *)

(** [if (rfbRef.current) rfbRef.current.sendMouse(...)], and likewise
    for keys.  The call is recorded; a transport error of the client is
    thrown to the caller. *)
Definition sendToClient (c : VNCCall) : M unit :=
  fun w =>
    let w1 := with_vncCalls (vncCalls w ++ [c]) w in
    match rfbRef w1 with
    | None => (Returned tt, w1)
    | Some rfb =>
        match transportError rfb c with
        | Some e => (Thrown e, w1)
        | None => (Returned tt, with_rfbSent (rfbSent w1 ++ [c]) w1)
        end
    end.

Definition sendMouseEvent (x y : option JSValue) (buttonMask : Z) : M unit :=
  sendToClient (MouseEvent x y buttonMask).

Definition sendKeyboardEvent (keysym : Z) (pressed : bool) : M unit :=
  sendToClient (KeyboardEvent keysym pressed).

Definition disconnect : M unit :=
  modify (fun w =>
    match rfbRef w with
    | Some _ => with_rfb None ConnectionStatus.disconnected w
    | None => w
    end).

Definition takeScreenshot : M (option string) := get canvasRef.

(** ** The dashboard component *)

Definition Date_now : M Z := get now.

(** [await new Promise(resolve => setTimeout(resolve, ms))].  The pause
    moves the clock and nothing else: a timer that falls due while the
    handler pauses is an event of its own ([CaptureTimerFired],
    [SecondElapsed]), taken up once the handler has returned. *)
Definition sleep (ms : Z) : M unit := modify (fun w => with_now (now w + ms) w).

Definition set_actionStream (l : list AIAction) (u : UISession) : UISession :=
  {| currentSession := currentSession u; isVNCConnected := isVNCConnected u;
     vncConnectionStatus := vncConnectionStatus u;
     agentThinking := agentThinking u; safetyModal := safetyModal u;
     taskQueue := taskQueue u; actionStream := l |}.

Definition set_safetyModal (m : option SafetyModalType) (u : UISession) : UISession :=
  {| currentSession := currentSession u; isVNCConnected := isVNCConnected u;
     vncConnectionStatus := vncConnectionStatus u;
     agentThinking := agentThinking u; safetyModal := m;
     taskQueue := taskQueue u; actionStream := actionStream u |}.

Definition set_taskQueue (q : list AgentTask) (u : UISession) : UISession :=
  {| currentSession := currentSession u; isVNCConnected := isVNCConnected u;
     vncConnectionStatus := vncConnectionStatus u;
     agentThinking := agentThinking u; safetyModal := safetyModal u;
     taskQueue := q; actionStream := actionStream u |}.

Definition setUISession (f : UISession -> UISession) : M unit :=
  modify (with_uiSession f).

Definition setCurrentScreenshot (s : option string) : M unit :=
  modify (with_currentScreenshot s).

Definition addActionToStream (entry : AIAction) : M unit :=
  setUISession (fun prev => set_actionStream (actionStream prev ++ [entry]) prev).

Definition logEntry (prefix : string) (ty : AIActionType.t) (text : string)
    (a : option JSObject) : M unit :=
  t <- Date_now ;;
  addActionToStream
    {| id := prefix ++ "-" ++ string_of_Z t; type := ty; content := text;
       entry_args := a; timestamp := t |}.

Definition getActionReasoning (action : ComputerAction) : string :=
  let arg k := interpolate (getProp k (args action)) in
  let n := name action in
  if n === "click_at" then
    "I need to click at position (" ++ arg "x" ++ ", " ++ arg "y"
      ++ ") to interact with the UI element"
  else if n === "type_text_at" then
    "I need to type " ++ String dquote (arg "text")
      ++ String dquote " into the input field at position ("
      ++ arg "x" ++ ", " ++ arg "y" ++ ")"
  else if n === "navigate" then
    "I need to navigate to " ++ arg "url" ++ " to continue the task"
  else if n === "key_combination" then
    "I need to press " ++ arg "keys" ++ " to perform the required action"
  else if (n === "scroll_at") || (n === "scroll_document") then
    "I need to scroll " ++ arg "direction" ++ " to find the target element"
  else "Executing " ++ n ++ " action".

Definition TypeError (msg : string) : JSError :=
  {| error_name := "TypeError"; message := msg |}.

Definition Error (msg : string) : JSError :=
  {| error_name := "Error"; message := msg |}.

(** The [switch] of [executeAction]. *)
Definition dispatch (action : ComputerAction) : M unit :=
  let n := name action in
  let arg k := getProp k (args action) in
  if (n === "click_at") || (n === "hover_at") then
    sendMouseEvent (arg "x") (arg "y") (if n === "click_at" then 1 else 0)
  else if n === "type_text_at" then
    sendMouseEvent (arg "x") (arg "y") 1 ;;
    sleep 100 ;;
    sendKeyboardEvent 0 false
  else if n === "key_combination" then
    match arg "keys" with
    | Some (JStr keys) =>
        if toLowerCase keys === "enter" then
          sendKeyboardEvent 13 true ;;
          sendKeyboardEvent 13 false
        else ret tt
    | None =>
        throw (TypeError
          "Cannot read properties of undefined (reading 'toLowerCase')")
    | Some JNull =>
        throw (TypeError
          "Cannot read properties of null (reading 'toLowerCase')")
    | Some _ => throw (TypeError "keys.toLowerCase is not a function")
    end
  else ret tt.

(** The statements of the [try] block of [executeAction]. *)
Definition perform (action : ComputerAction) : M unit :=
  logEntry "reasoning" AIActionType.reasoning
    (getActionReasoning action) None ;;
  dispatch action ;;
  modify (fun w => with_captureTimers (S (captureTimers w)) w).

(** The [try] block, entered as soon as the executor is invoked; the
    invocation is recorded. *)
Definition tryExecute (action : ComputerAction) : M unit :=
  modify (fun w => with_executorCalls (executorCalls w ++ [action]) w) ;;
  perform action.

Definition executeAction (action : ComputerAction) : M unit :=
  tryCatch
    (tryExecute action)
    (fun error =>
       logEntry "error" AIActionType.error
         ("Failed to execute " ++ name action ++ ": " ++ message error) None).

Definition newModal (action : ComputerAction) (shot : option string)
    : SafetyModalType :=
  {| modal_action := action;
     screenshot := shot;
     modal_reasoning :=
       match safetyDecision action with
       | Some sd => explanation sd
       | None => ""
       end;
     timeout := 30 |}.

Definition processAction (action : ComputerAction) (shot : option string)
    : M unit :=
  logEntry "action"
    (if decisionIs action require_confirmation
     then AIActionType.safety_check else AIActionType.action)
    ("Executing: " ++ name action) (Some (args action)) ;;
  if decisionIs action require_confirmation then
    setUISession (set_safetyModal (Some (newModal action shot)))
  else
    executeAction action.

(** [modal.onApprove] and [modal.onDeny] of the request [m]. *)
Definition onApprove (m : SafetyModalType) : M unit :=
  executeAction (modal_action m) ;;
  setUISession (set_safetyModal None).

Definition onDeny (m : SafetyModalType) : M unit :=
  logEntry "denied" AIActionType.error
    ("Action denied by user: " ++ name (modal_action m)) None ;;
  setUISession (set_safetyModal None).

(** ** [useGemini]: the request to the model *)

Record FunctionCall : Type := {
  fc_name : string;
  fc_args : option JSObject;
  safety_decision : option SafetyDecision
}.

Definition parseFunctionCall (functionCall : FunctionCall) : ComputerAction :=
  {| name := fc_name functionCall;
     args := match fc_args functionCall with Some a => a | None => [] end;
     safetyDecision := safety_decision functionCall |}.

(** What [model.generateContent] does: it fails, or it answers with
    [response.functionCalls], possibly absent. *)
Inductive GeminiReply : Type :=
| Failure (e : JSError)
| Response (functionCalls : option (list FunctionCall)).

Definition sendRequest (prompt : string) (shot : option string)
    (reply : GeminiReply) : M (list ComputerAction) :=
  config <- get geminiConfig ;;
  if apiKey config === "" then throw (Error "Gemini API key is required")
  else
    match reply with
    | Failure e => throw e
    | Response functionCalls =>
        ret (map parseFunctionCall
               (match functionCalls with Some l => l | None => [] end))
    end.

(** A string is truthy when present and not empty. *)
Definition truthy (s : option string) : bool :=
  match s with
  | Some t => negb (t === "")
  | None => false
  end.

(** [s || undefined] *)
Definition orUndefined (s : option string) : option string :=
  if truthy s then s else None.

Definition markTask (tid : string) (f : AgentTask -> AgentTask) : M unit :=
  setUISession (fun prev =>
    set_taskQueue
      (map (fun t => if task_id t === tid then f t else t) (taskQueue prev))
      prev).

Definition completedAt_ (at_ : Z) (t : AgentTask) : AgentTask :=
  {| task_id := task_id t; sessionId := sessionId t;
     description := description t; status := TaskStatus.completed;
     priority := priority t; createdAt := createdAt t;
     completedAt := Some at_; actions := actions t;
     task_error := task_error t |}.

Definition failedWith (err : string) (t : AgentTask) : AgentTask :=
  {| task_id := task_id t; sessionId := sessionId t;
     description := description t; status := TaskStatus.failed;
     priority := priority t; createdAt := createdAt t;
     completedAt := completedAt t; actions := actions t;
     task_error := Some err |}.

Definition handleTaskSubmit (taskDescription : string) (reply : GeminiReply)
    : M unit :=
  session <- get (fun w => currentSession (uiSession w)) ;;
  match session with
  | None =>
      logEntry "error" AIActionType.error
        "No active session. Please start a session first." None
  | Some s =>
      t0 <- Date_now ;;
      let task :=
        {| task_id := "task-" ++ string_of_Z t0; sessionId := session_id s;
           description := taskDescription; status := TaskStatus.in_progress;
           priority := Priority.medium; createdAt := t0; completedAt := None;
           actions := []; task_error := None |} in
      setUISession (fun prev => set_taskQueue (taskQueue prev ++ [task]) prev) ;;
      logEntry "obs" AIActionType.observation
        ("Received task: " ++ String dquote (taskDescription ++ String dquote ""))
        None ;;
      tryCatch
        (cached <- get currentScreenshot ;;
         shot <- (if truthy cached then ret cached else takeScreenshot) ;;
         (if truthy shot then setCurrentScreenshot shot else ret tt) ;;
         actions <- sendRequest taskDescription (orUndefined shot) reply ;;
         forEach actions (fun action => processAction action (orUndefined shot)) ;;
         t1 <- Date_now ;;
         markTask (task_id task) (completedAt_ t1))
        (fun error =>
           logEntry "error" AIActionType.error
             ("Task failed: " ++ message error) None ;;
           markTask (task_id task) (failedWith (String_of_error error)))
  end.

Definition stoppedSession (s : AgentSession) : AgentSession :=
  {| session_id := session_id s; session_name := session_name s;
     session_status := SessionStatus.stopped |}.

Definition emergencyStop : M unit :=
  disconnect ;;
  setUISession (fun prev =>
    {| currentSession := option_map stoppedSession (currentSession prev);
       isVNCConnected := isVNCConnected prev;
       vncConnectionStatus := vncConnectionStatus prev;
       agentThinking := agentThinking prev;
       safetyModal := None;
       taskQueue := taskQueue prev;
       actionStream := actionStream prev |}) ;;
  logEntry "emergency" AIActionType.error
    "Emergency stop activated by user" None.

Definition stopSession : M unit :=
  disconnect ;;
  setUISession (fun prev =>
    {| currentSession := None;
       isVNCConnected := false;
       vncConnectionStatus := vncConnectionStatus prev;
       agentThinking := agentThinking prev;
       safetyModal := safetyModal prev;
       taskQueue := taskQueue prev;
       actionStream := [] |}).

(** The callback of the [setTimeout] that [executeAction] schedules. *)
Definition captureAfterAction : M unit :=
  newScreenshot <- takeScreenshot ;;
  (if truthy newScreenshot then setCurrentScreenshot newScreenshot else ret tt) ;;
  modify (fun w => with_captureTimers (Nat.pred (captureTimers w)) w).

(** ** The approval dialog ([SafetyModal]) *)

(** Rendering: the dialog is mounted while [uiSession.safetyModal] is
    set; mounting initialises [timeLeft] with [useState(timeout)], and
    a dialog that stays mounted keeps its [timeLeft]. *)
Definition render (w : World) : World :=
  match safetyModal (uiSession w), timeLeft w with
  | None, _ => with_timeLeft None w
  | Some m, None => with_timeLeft (Some (timeout m)) w
  | Some _, Some _ => w
  end.

(** The effect installs the interval only when [timeLeft > 0]. *)
Definition intervalActive (w : World) : bool :=
  match safetyModal (uiSession w), timeLeft w with
  | Some _, Some t => 0 <? t
  | _, _ => false
  end.

(** The interval callback: [setTimeLeft(prev => ...)]. *)
Definition countdown : M unit :=
  fun w =>
    match safetyModal (uiSession w), timeLeft w with
    | Some m, Some prev =>
        if prev <=? 1 then
          (onDeny m ;; modify (with_timeLeft (Some 0))) w
        else modify (with_timeLeft (Some (prev - 1))) w
    | _, _ => (Returned tt, w)
    end.

(** ** Events

    What happens to the dashboard: a task is submitted (with what the
    model answers to it), a button is clicked, a second of the
    countdown elapses, a capture timer fires.  An event is handled to
    its end before the next one; the pause of 100 ms inside
    [type_text_at] only moves the clock.  After each event the dialog
    is rendered again. *)

Inductive Event : Type :=
| TaskSubmitted (taskDescription : string) (reply : GeminiReply)
| ApproveClicked
| DenyClicked
| SecondElapsed
| EmergencyStopClicked
| StopSessionClicked
| CaptureTimerFired.

Definition handler (ev : Event) : M unit :=
  match ev with
  | TaskSubmitted d reply => handleTaskSubmit d reply
  | ApproveClicked =>
      fun w => match safetyModal (uiSession w) with
               | Some m => onApprove m w
               | None => (Returned tt, w)
               end
  | DenyClicked =>
      fun w => match safetyModal (uiSession w) with
               | Some m => onDeny m w
               | None => (Returned tt, w)
               end
  | SecondElapsed =>
      fun w => if intervalActive w then (sleep 1000 ;; countdown) w
               else sleep 1000 w
  | EmergencyStopClicked => emergencyStop
  | StopSessionClicked => stopSession
  | CaptureTimerFired =>
      fun w => match captureTimers w with
               | O => (Returned tt, w)
               | S _ => captureAfterAction w
               end
  end.

Definition step (w : World) (ev : Event) : World :=
  render (after (handler ev) w).

Definition run (w : World) (evs : list Event) : World :=
  fold_left step evs w.

(** The task most recently submitted. *)
Definition lastTask (w : World) : option AgentTask :=
  last (map Some (taskQueue (uiSession w))) None.

(** * Properties *)

(** ** Substrings *)

Lemma prefix_spec (p s : string) :
  String.prefix p s = true <-> exists post, s = p ++ post.
Proof.
  revert s; induction p as [|c p IH]; intros s; simpl.
  - split; [exists s; reflexivity | destruct s; reflexivity].
  - destruct s as [|d s].
    + split; [discriminate | intros [post H]; discriminate].
    + simpl. destruct (Ascii.ascii_dec c d) as [->|ne].
      * rewrite IH. split; intros [post H]; exists post.
        -- now rewrite H.
        -- now inversion H.
      * split; [discriminate | intros [post H]; inversion H; congruence].
Qed.

(** [includes s sub] holds exactly when [sub] occurs in [s]. *)
Lemma includes_spec (s sub : string) :
  includes s sub = true <-> exists pre post, s = pre ++ sub ++ post.
Proof.
  induction s as [|c s IH]; cbn [includes].
  - rewrite orb_false_r, prefix_spec. split.
    + intros [post H]. exists "", post. exact H.
    + intros [pre [post H]]. destruct pre; [exists post; exact H | discriminate].
  - rewrite orb_true_iff, prefix_spec, IH. split.
    + intros [[post H] | [pre [post H]]].
      * exists "", post. exact H.
      * exists (String c pre), post. simpl. now rewrite H.
    + intros [pre [post H]]. destruct pre as [|d pre].
      * left. exists post. exact H.
      * right. simpl in H. inversion H. exists pre, post. reflexivity.
Qed.

(** ** Handlers that keep a part of the state *)

Definition keeps {X A} (f : World -> X) (m : M A) : Prop :=
  forall w, f (after m w) = f w.

Definition returns {A} (m : M A) : Prop :=
  forall w, exists a, fst (m w) = Returned a.

Section Keeps.
Context {X : Type} (f : World -> X).

Lemma keeps_ret {A} (a : A) : keeps f (ret a).
Proof. intro w. reflexivity. Qed.

Lemma keeps_throw {A} (e : JSError) : keeps f (@throw A e).
Proof. intro w. reflexivity. Qed.

Lemma keeps_get {A} (g : World -> A) : keeps f (get g).
Proof. intro w. reflexivity. Qed.

Lemma keeps_bind {A B} (m : M A) (k : A -> M B) :
  keeps f m -> (forall a, keeps f (k a)) -> keeps f (bind m k).
Proof.
  intros Hm Hk w. unfold after, bind.
  specialize (Hm w). unfold after in Hm.
  destruct (m w) as [[a|e] w1]; simpl in *.
  - rewrite <- Hm. apply Hk.
  - exact Hm.
Qed.

Lemma keeps_tryCatch {A} (m : M A) (h : JSError -> M A) :
  keeps f m -> (forall e, keeps f (h e)) -> keeps f (tryCatch m h).
Proof.
  intros Hm Hh w. unfold after, tryCatch.
  specialize (Hm w). unfold after in Hm.
  destruct (m w) as [[a|e] w1]; simpl in *.
  - exact Hm.
  - rewrite <- Hm. apply Hh.
Qed.

Lemma keeps_modify (g : World -> World) :
  (forall w, f (g w) = f w) -> keeps f (modify g).
Proof. intros H w. apply H. Qed.

Lemma keeps_forEach {A} (l : list A) (body : A -> M unit) :
  (forall a, keeps f (body a)) -> keeps f (forEach l body).
Proof.
  intros H. induction l as [|a l IH]; simpl.
  - apply keeps_ret.
  - apply keeps_bind; [apply H | intros _; exact IH].
Qed.
End Keeps.

Lemma returns_ret {A} (a : A) : returns (ret a).
Proof. intro w. exists a. reflexivity. Qed.

Lemma returns_modify (g : World -> World) : returns (modify g).
Proof. intro w. exists tt. reflexivity. Qed.

Lemma returns_get {A} (g : World -> A) : returns (get g).
Proof. intro w. exists (g w). reflexivity. Qed.

Lemma returns_bind {A B} (m : M A) (k : A -> M B) :
  returns m -> (forall a, returns (k a)) -> returns (bind m k).
Proof.
  intros Hm Hk w. unfold bind. destruct (Hm w) as [a Ha].
  destruct (m w) as [[a'|e] w1]; simpl in Ha; [|discriminate].
  apply Hk.
Qed.

Lemma returns_tryCatch {A} (m : M A) (h : JSError -> M A) :
  (forall e, returns (h e)) -> returns (tryCatch m h).
Proof.
  intros Hh w. unfold tryCatch.
  destruct (m w) as [[a|e] w1]; [exists a; reflexivity | apply Hh].
Qed.

Lemma returns_forEach {A} (l : list A) (body : A -> M unit) :
  (forall a, returns (body a)) -> returns (forEach l body).
Proof.
  intros H. induction l as [|a l IH]; simpl.
  - apply returns_ret.
  - apply returns_bind; [apply H | intros _; exact IH].
Qed.

Lemma returns_logEntry p ty text a : returns (logEntry p ty text a).
Proof. intro w. exists tt. reflexivity. Qed.

(** A handler that returns continues with what follows it. *)
Lemma after_bind {A B} (m : M A) (k : A -> M B) (w : World) (a : A) :
  fst (m w) = Returned a -> after (bind m k) w = after (k a) (after m w).
Proof.
  unfold after, bind. destruct (m w) as [[a'|e] w1]; simpl; intros H.
  - now inversion H.
  - discriminate.
Qed.

Lemma fst_bind {A B} (m : M A) (k : A -> M B) (w : World) (a : A) :
  fst (m w) = Returned a -> fst (bind m k w) = fst (k a (after m w)).
Proof.
  unfold after, bind. destruct (m w) as [[a'|e] w1]; simpl; intros H.
  - now inversion H.
  - discriminate.
Qed.

(** ** The executor never lets an error out *)

Lemma executeAction_returns (action : ComputerAction) :
  returns (executeAction action).
Proof.
  unfold executeAction. apply returns_tryCatch.
  intros e. apply returns_logEntry.
Qed.

Lemma processAction_returns (action : ComputerAction) shot :
  returns (processAction action shot).
Proof.
  unfold processAction. apply returns_bind; [apply returns_logEntry|].
  intros _. destruct (decisionIs action require_confirmation).
  - apply returns_modify.
  - apply executeAction_returns.
Qed.

(** ** What the executor leaves alone *)

(** A part of the state that the stream, the clock, the capture timers
    and the records of the remote session do not enter. *)
Class Control {X} (f : World -> X) : Prop := {
  control_stream : forall l w,
    f (with_uiSession (set_actionStream l) w) = f w;
  control_now : forall t w, f (with_now t w) = f w;
  control_timers : forall n w, f (with_captureTimers n w) = f w;
  control_vncCalls : forall l w, f (with_vncCalls l w) = f w;
  control_rfbSent : forall l w, f (with_rfbSent l w) = f w
}.

#[export] Instance Control_safetyModal :
  Control (fun w => safetyModal (uiSession w)).
Proof. split; reflexivity. Qed.

#[export] Instance Control_taskQueue :
  Control (fun w => taskQueue (uiSession w)).
Proof. split; reflexivity. Qed.

#[export] Instance Control_currentSession :
  Control (fun w => currentSession (uiSession w)).
Proof. split; reflexivity. Qed.

#[export] Instance Control_timeLeft : Control timeLeft.
Proof. split; reflexivity. Qed.

#[export] Instance Control_executorCalls : Control executorCalls.
Proof. split; reflexivity. Qed.

#[export] Instance Control_rfbRef : Control rfbRef.
Proof. split; reflexivity. Qed.

Section ControlLemmas.
Context {X : Type} (f : World -> X) `{!Control f}.

Lemma keeps_logEntry p ty text a : keeps f (logEntry p ty text a).
Proof. intro w. apply (control_stream (f := f)). Qed.

Lemma keeps_sendToClient c : keeps f (sendToClient c).
Proof.
  intro w. unfold after, sendToClient.
  destruct w as [u cs g tl [rfb|] cv st n ct ec vc rs]; simpl.
  - destruct (transportError rfb c); simpl.
    + apply (control_vncCalls (f := f)).
    + rewrite (control_rfbSent (f := f)). apply (control_vncCalls (f := f)).
  - apply (control_vncCalls (f := f)).
Qed.

Lemma keeps_sleep ms : keeps f (sleep ms).
Proof. intro w. apply (control_now (f := f)). Qed.

Lemma keeps_dispatch action : keeps f (dispatch action).
Proof.
  unfold dispatch, sendMouseEvent, sendKeyboardEvent.
  repeat
    match goal with
    | |- keeps _ (if ?b then _ else _) => destruct b
    | |- keeps _ (match ?o with _ => _ end) => destruct o
    | |- keeps _ (bind _ _) => apply keeps_bind; [|intros _]
    | |- keeps _ (sendToClient _) => apply keeps_sendToClient
    | |- keeps _ (sleep _) => apply keeps_sleep
    | |- keeps _ (ret _) => apply keeps_ret
    | |- keeps _ (throw _) => apply keeps_throw
    end.
Qed.

Lemma keeps_perform action : keeps f (perform action).
Proof.
  unfold perform.
  apply keeps_bind; [apply keeps_logEntry | intros _].
  apply keeps_bind; [apply keeps_dispatch | intros _].
  apply keeps_modify. intro w. apply (control_timers (f := f)).
Qed.

Lemma keeps_caught action (body : M unit) :
  keeps f body ->
  keeps f (tryCatch body
             (fun error =>
                logEntry "error" AIActionType.error
                  ("Failed to execute " ++ name action ++ ": "
                     ++ message error) None)).
Proof.
  intros Hb. apply keeps_tryCatch; [exact Hb|].
  intros e. apply keeps_logEntry.
Qed.

Lemma keeps_executeAction action :
  (forall l w, f (with_executorCalls l w) = f w) ->
  keeps f (executeAction action).
Proof.
  intros Hf. unfold executeAction, tryExecute. apply keeps_caught.
  apply keeps_bind; [apply keeps_modify; intro; apply Hf | intros _].
  apply keeps_perform.
Qed.
End ControlLemmas.

(** ** The task runner on a response of the model *)

(** The screenshot a submission works with: the cached one, else a
    fresh export of the canvas. *)
Definition captured (w : World) : option string :=
  if truthy (currentScreenshot w) then currentScreenshot w else canvasRef w.

Definition submittedTask (w : World) (s : AgentSession) (d : string)
    : AgentTask :=
  {| task_id := "task-" ++ string_of_Z (now w); sessionId := session_id s;
     description := d; status := TaskStatus.in_progress;
     priority := Priority.medium; createdAt := now w; completedAt := None;
     actions := []; task_error := None |}.

(** The world when the loop over the actions starts. *)
Definition prepared (w : World) (s : AgentSession) (d : string) : World :=
  let queued :=
    with_uiSession
      (fun prev => set_taskQueue (taskQueue prev ++ [submittedTask w s d]) prev)
      w in
  let logged :=
    after (logEntry "obs" AIActionType.observation
             ("Received task: " ++ String dquote (d ++ String dquote "")) None)
          queued in
  if truthy (captured w) then with_currentScreenshot (captured w) logged
  else logged.

Definition callsOf (functionCalls : option (list FunctionCall))
    : list ComputerAction :=
  map parseFunctionCall
    (match functionCalls with Some l => l | None => [] end).

Definition batch (l : list ComputerAction) (shot : option string) : M unit :=
  forEach l (fun action => processAction action shot).

Lemma batch_returns l shot : returns (batch l shot).
Proof. apply returns_forEach. intro a. apply processAction_returns. Qed.

Lemma prepared_config w s d : geminiConfig (prepared w s d) = geminiConfig w.
Proof. unfold prepared. destruct (truthy (captured w)); reflexivity. Qed.

Lemma prepared_now w s d : now (prepared w s d) = now w.
Proof. unfold prepared. destruct (truthy (captured w)); reflexivity. Qed.

(** Unfolding of the handler combinators and of the record updates. *)
Ltac unfold_handlers :=
  cbv beta iota zeta delta
    [bind get ret modify tryCatch throw Date_now setUISession
     setCurrentScreenshot logEntry addActionToStream takeScreenshot markTask
     sleep after fst snd].

Ltac simpl_world :=
  cbn [uiSession currentScreenshot geminiConfig timeLeft rfbRef canvasRef
       connectionStatus now captureTimers executorCalls vncCalls rfbSent
       with_uiSession with_currentScreenshot with_timeLeft with_rfb with_now
       with_captureTimers with_executorCalls with_vncCalls with_rfbSent
       currentSession isVNCConnected vncConnectionStatus agentThinking
       safetyModal taskQueue actionStream
       set_actionStream set_safetyModal set_taskQueue].

Ltac run_handlers := repeat (progress (unfold_handlers; simpl_world)).

(** With a session and an API key, a response of the model is
    processed to its end and the task is then marked completed. *)
Lemma handleTaskSubmit_response w s d functionCalls :
  currentSession (uiSession w) = Some s ->
  apiKey (geminiConfig w) <> "" ->
  let w2 := after (batch (callsOf functionCalls) (orUndefined (captured w)))
                  (prepared w s d) in
  handleTaskSubmit d (Response functionCalls) w
  = (Returned tt,
     after (markTask (task_id (submittedTask w s d)) (completedAt_ (now w2)))
           w2).
Proof.
  intros Hs Hkey w2.
  assert (Hk : (apiKey (geminiConfig w) === "") = false)
    by (apply String.eqb_neq; exact Hkey).
  subst w2.
  unfold handleTaskSubmit, prepared, captured, batch, callsOf, sendRequest,
    submittedTask.
  run_handlers. rewrite Hs. run_handlers.
  destruct (truthy (currentScreenshot w)) eqn:Hc; run_handlers;
    [rewrite Hc | destruct (truthy (canvasRef w)) eqn:Hv];
    run_handlers; rewrite Hk;
    match goal with
    | |- context [forEach ?l ?b ?w0] =>
        let H := fresh in
        pose proof (returns_forEach l b
                      (fun a => processAction_returns a _) w0) as [[] H];
        destruct (forEach l b w0) as [[[]|e] w3]; [|discriminate H]
    end; reflexivity.
Qed.

(** ** Rendering only touches [timeLeft] *)

Lemma render_uiSession w : uiSession (render w) = uiSession w.
Proof.
  unfold render.
  destruct (safetyModal (uiSession w)), (timeLeft w); reflexivity.
Qed.

Lemma render_executorCalls w : executorCalls (render w) = executorCalls w.
Proof.
  unfold render.
  destruct (safetyModal (uiSession w)), (timeLeft w); reflexivity.
Qed.

Lemma render_vncCalls w : vncCalls (render w) = vncCalls w.
Proof.
  unfold render.
  destruct (safetyModal (uiSession w)), (timeLeft w); reflexivity.
Qed.

Lemma render_rfbSent w : rfbSent (render w) = rfbSent w.
Proof.
  unfold render.
  destruct (safetyModal (uiSession w)), (timeLeft w); reflexivity.
Qed.

Lemma render_now w : now (render w) = now w.
Proof.
  unfold render.
  destruct (safetyModal (uiSession w)), (timeLeft w); reflexivity.
Qed.

Lemma render_rfbRef w : rfbRef (render w) = rfbRef w.
Proof.
  unfold render.
  destruct (safetyModal (uiSession w)), (timeLeft w); reflexivity.
Qed.

Lemma lastTask_render w : lastTask (render w) = lastTask w.
Proof. unfold lastTask. now rewrite render_uiSession. Qed.

(** ** The queue around a submission *)

Lemma last_marked (q : list AgentTask) (t : AgentTask)
    (g : AgentTask -> AgentTask) :
  last (map Some
          (map (fun x => if task_id x === task_id t then g x else x)
               (q ++ [t]))) None
  = Some (g t).
Proof.
  rewrite !map_app. simpl. rewrite last_last.
  now rewrite String.eqb_refl.
Qed.

Lemma prepared_taskQueue w s d :
  taskQueue (uiSession (prepared w s d))
  = (taskQueue (uiSession w) ++ [submittedTask w s d])%list.
Proof. unfold prepared. destruct (truthy (captured w)); reflexivity. Qed.

Lemma prepared_safetyModal w s d :
  safetyModal (uiSession (prepared w s d)) = safetyModal (uiSession w).
Proof. unfold prepared. destruct (truthy (captured w)); reflexivity. Qed.

Lemma prepared_timeLeft w s d : timeLeft (prepared w s d) = timeLeft w.
Proof. unfold prepared. destruct (truthy (captured w)); reflexivity. Qed.

Lemma prepared_executorCalls w s d :
  executorCalls (prepared w s d) = executorCalls w.
Proof. unfold prepared. destruct (truthy (captured w)); reflexivity. Qed.

Lemma prepared_vncCalls w s d : vncCalls (prepared w s d) = vncCalls w.
Proof. unfold prepared. destruct (truthy (captured w)); reflexivity. Qed.

Lemma prepared_rfbSent w s d : rfbSent (prepared w s d) = rfbSent w.
Proof. unfold prepared. destruct (truthy (captured w)); reflexivity. Qed.

(** Marking the submitted task once the batch is over. *)
Lemma lastTask_completed w2 t q :
  taskQueue (uiSession w2) = (q ++ [t])%list ->
  lastTask (after (markTask (task_id t) (completedAt_ (now w2))) w2)
  = Some (completedAt_ (now w2) t).
Proof.
  intros Hq. unfold lastTask, markTask. run_handlers.
  rewrite Hq. apply last_marked.
Qed.

(** ** Worlds used as concrete inputs *)

Definition demoSession : AgentSession :=
  {| session_id := "session-1"; session_name := "Session 1";
     session_status := SessionStatus.idle |}.

(** A running session with an API key; [rfb] is the noVNC client. *)
Definition demoWorld (rfb : option RFB) : World :=
  {| uiSession :=
       {| currentSession := Some demoSession;
          isVNCConnected := false;
          vncConnectionStatus := ConnectionStatus.disconnected;
          agentThinking := false;
          safetyModal := None;
          taskQueue := [];
          actionStream := [] |};
     currentScreenshot := None;
     geminiConfig := {| apiKey := "key"; modelId := "gemini" |};
     timeLeft := None;
     rfbRef := rfb;
     canvasRef := None;
     connectionStatus := ConnectionStatus.connected;
     now := 0;
     captureTimers := 0;
     executorCalls := [];
     vncCalls := [];
     rfbSent := [] |}.

Definition healthyRFB : RFB := {| transportError := fun _ => None |}.

Definition brokenRFB : RFB :=
  {| transportError := fun _ => Some (Error "WebSocket is closed") |}.

Definition clickCall (d : Decision) (x y : Z) : FunctionCall :=
  {| fc_name := "click_at";
     fc_args := Some [("x", JNum x); ("y", JNum y)];
     safety_decision := Some {| explanation := "model note"; decision := d |} |}.

(** ** C9: an empty response *)

(** C9. A task whose model response holds no action (an empty list, or
    no [functionCalls] at all) is marked completed at once: the
    executor is not invoked, no command goes to the remote session and
    no time passes. *)
Theorem empty_response_completes
    (w : World) (s : AgentSession) (d : string)
    (functionCalls : option (list FunctionCall)) :
  currentSession (uiSession w) = Some s ->
  apiKey (geminiConfig w) <> "" ->
  callsOf functionCalls = [] ->
  let w' := step w (TaskSubmitted d (Response functionCalls)) in
  option_map status (lastTask w') = Some TaskStatus.completed /\
  option_map description (lastTask w') = Some d /\
  option_map completedAt (lastTask w') = Some (Some (now w)) /\
  executorCalls w' = executorCalls w /\
  vncCalls w' = vncCalls w /\
  rfbSent w' = rfbSent w /\
  safetyModal (uiSession w') = safetyModal (uiSession w) /\
  now w' = now w.
Proof.
  intros Hs Hkey Hempty w'. subst w'. unfold step, handler, after.
  rewrite (handleTaskSubmit_response w s d functionCalls Hs Hkey).
  rewrite Hempty. cbn [snd].
  change (after (batch [] (orUndefined (captured w))) (prepared w s d))
    with (prepared w s d).
  set (wf := after _ (prepared w s d)).
  assert (Hlast : lastTask wf
                  = Some (completedAt_ (now (prepared w s d))
                            (submittedTask w s d))).
  { apply (lastTask_completed _ _ (taskQueue (uiSession w))).
    apply prepared_taskQueue. }
  rewrite lastTask_render, render_executorCalls, render_vncCalls,
    render_rfbSent, render_uiSession, render_now, Hlast.
  subst wf. unfold markTask. run_handlers.
  rewrite prepared_executorCalls, prepared_vncCalls, prepared_rfbSent,
    prepared_safetyModal, prepared_now.
  repeat split.
Qed.

Lemma empty_response_completes_witness :
  let w' := step (demoWorld (Some healthyRFB))
              (TaskSubmitted "open the calculator" (Response (Some []))) in
  option_map status (lastTask w') = Some TaskStatus.completed /\
  executorCalls w' = [].
Proof.
  pose proof (empty_response_completes (demoWorld (Some healthyRFB))
                demoSession "open the calculator" (Some [])) as H.
  destruct H as (H1 & _ & _ & H4 & _).
  - reflexivity.
  - discriminate.
  - reflexivity.
  - split; [exact H1 | exact H4].
Defined.

(** ** The two branches of [processAction] *)

Lemma executeAction_calls (action : ComputerAction) (w : World) :
  executorCalls (after (executeAction action) w)
  = (executorCalls w ++ [action])%list.
Proof.
  change (after (executeAction action) w)
    with (after (tryCatch (perform action)
                   (fun error =>
                      logEntry "error" AIActionType.error
                        ("Failed to execute " ++ name action ++ ": "
                           ++ message error) None))
                (with_executorCalls (executorCalls w ++ [action]) w)).
  rewrite (keeps_caught executorCalls action (perform action)
             (keeps_perform executorCalls action)).
  reflexivity.
Qed.

Definition announce (action : ComputerAction) : M unit :=
  logEntry "action"
    (if decisionIs action require_confirmation
     then AIActionType.safety_check else AIActionType.action)
    ("Executing: " ++ name action) (Some (args action)).

Lemma keeps_announce {X} (f : World -> X) `{!Control f} action :
  keeps f (announce action).
Proof. apply keeps_logEntry. assumption. Qed.

(** A descriptor to confirm only opens the dialog. *)
Lemma processAction_gate (action : ComputerAction) shot (w : World) :
  decisionIs action require_confirmation = true ->
  processAction action shot w
  = (Returned tt,
     with_uiSession (set_safetyModal (Some (newModal action shot)))
       (after (announce action) w)).
Proof. intros H. unfold processAction, announce. rewrite H. reflexivity. Qed.

(** Every other descriptor goes to the executor at once. *)
Lemma processAction_direct (action : ComputerAction) shot (w : World) :
  decisionIs action require_confirmation = false ->
  after (processAction action shot) w
  = after (executeAction action) (after (announce action) w).
Proof.
  intros H. unfold processAction, announce. rewrite H.
  rewrite (after_bind _ _ w tt) by reflexivity. reflexivity.
Qed.

Lemma unconfirmed_action_is_executed (action : ComputerAction) shot w :
  decisionIs action require_confirmation = false ->
  executorCalls (after (processAction action shot) w)
  = (executorCalls w ++ [action])%list.
Proof.
  intros H. rewrite processAction_direct by exact H.
  now rewrite executeAction_calls.
Qed.

Lemma keeps_processAction_taskQueue (action : ComputerAction) shot :
  keeps (fun w => taskQueue (uiSession w)) (processAction action shot).
Proof.
  unfold processAction.
  apply keeps_bind; [apply keeps_logEntry; exact _ | intros _].
  destruct (decisionIs action require_confirmation).
  - apply keeps_modify. reflexivity.
  - apply keeps_executeAction; [exact _ | reflexivity].
Qed.

Lemma batch_taskQueue l shot :
  keeps (fun w => taskQueue (uiSession w)) (batch l shot).
Proof. apply keeps_forEach. intro a. apply keeps_processAction_taskQueue. Qed.

Lemma decision_exclusive (action : ComputerAction) (d : Decision) :
  d <> require_confirmation ->
  decisionIs action d = true ->
  decisionIs action require_confirmation = false.
Proof.
  unfold decisionIs. destruct (safetyDecision action) as [[e []]|];
    destruct d; simpl; congruence.
Qed.

(** For any response, the task submitted ends up completed. *)
Lemma response_completes w s d functionCalls :
  currentSession (uiSession w) = Some s ->
  apiKey (geminiConfig w) <> "" ->
  option_map status (lastTask (step w (TaskSubmitted d (Response functionCalls))))
  = Some TaskStatus.completed.
Proof.
  intros Hs Hkey. unfold step, handler, after at 1.
  rewrite (handleTaskSubmit_response w s d functionCalls Hs Hkey).
  cbn [snd]. rewrite lastTask_render.
  erewrite lastTask_completed; [reflexivity|].
  rewrite batch_taskQueue. apply prepared_taskQueue.
Qed.

(** ** C1: a blocked descriptor *)

(** Any blocked descriptor is handed to the executor. *)
Lemma blocked_action_is_executed (action : ComputerAction) shot w :
  decisionIs action blocked = true ->
  executorCalls (after (processAction action shot) w)
  = (executorCalls w ++ [action])%list.
Proof.
  intros Hb. apply unconfirmed_action_is_executed.
  apply (decision_exclusive action blocked); [discriminate | exact Hb].
Qed.

Definition blockedClick : FunctionCall := clickCall blocked 10 20.

(** C1. The claim asks that a descriptor whose decision is [blocked]
    never reaches the executor.  [processAction] only tests for
    [require_confirmation]: here a blocked click is handed to
    [executeAction], which sends the button press to the remote
    session. *)
Theorem blocked_descriptor_reaches_executor :
  let a := parseFunctionCall blockedClick in
  let w' := step (demoWorld (Some healthyRFB))
              (TaskSubmitted "tidy up" (Response (Some [blockedClick]))) in
  decisionIs a blocked = true /\
  executorCalls w' = [a] /\
  vncCalls w' = [MouseEvent (Some (JNum 10)) (Some (JNum 20)) 1] /\
  rfbSent w' = [MouseEvent (Some (JNum 10)) (Some (JNum 20)) 1].
Proof. vm_compute. repeat split. Qed.

(** ** C2: a confirmation followed by an allowed descriptor *)

Definition confirmClick : FunctionCall := clickCall require_confirmation 10 20.
Definition allowedClick : FunctionCall := clickCall allowed 30 40.

(** C2, as stated, fails: after the submission the request for the
    first descriptor is still pending, and the second descriptor has
    been executed already. *)
Lemma second_runs_while_first_pending :
  let a1 := parseFunctionCall confirmClick in
  let a2 := parseFunctionCall allowedClick in
  let w' := step (demoWorld (Some healthyRFB))
              (TaskSubmitted "pay" (Response (Some [confirmClick; allowedClick]))) in
  option_map modal_action (safetyModal (uiSession w')) = Some a1 /\
  timeLeft w' = Some 30 /\
  executorCalls w' = [a2] /\
  rfbSent w' = [MouseEvent (Some (JNum 30)) (Some (JNum 40)) 1].
Proof. vm_compute. repeat split. Qed.

Lemma batch_cons a l shot w :
  after (batch (a :: l) shot) w
  = after (batch l shot) (after (processAction a shot) w).
Proof.
  unfold batch. cbn [forEach].
  destruct (processAction_returns a shot w) as [[] H].
  now rewrite (after_bind _ _ w tt H).
Qed.

Lemma batch_nil shot w : after (batch [] shot) w = w.
Proof. reflexivity. Qed.

(** Resolving the pending request by a click. *)
Lemma approve_executes w m :
  safetyModal (uiSession w) = Some m ->
  executorCalls (step w ApproveClicked)
    = (executorCalls w ++ [modal_action m])%list /\
  safetyModal (uiSession (step w ApproveClicked)) = None.
Proof.
  intros Hm.
  assert (Hstep : step w ApproveClicked = render (after (onApprove m) w))
    by (unfold step, handler, after; now rewrite Hm).
  rewrite Hstep, render_executorCalls, render_uiSession.
  unfold onApprove.
  destruct (executeAction_returns (modal_action m) w) as [[] H].
  rewrite (after_bind _ _ w tt H).
  split; [|reflexivity].
  change (executorCalls (after (executeAction (modal_action m)) w)
          = (executorCalls w ++ [modal_action m])%list).
  apply executeAction_calls.
Qed.

Definition denialEntry (m : SafetyModalType) (t : Z) : AIAction :=
  {| id := "denied-" ++ string_of_Z t; type := AIActionType.error;
     content := "Action denied by user: " ++ name (modal_action m);
     entry_args := None; timestamp := t |}.

Lemma deny_skips w m :
  safetyModal (uiSession w) = Some m ->
  executorCalls (step w DenyClicked) = executorCalls w /\
  vncCalls (step w DenyClicked) = vncCalls w /\
  safetyModal (uiSession (step w DenyClicked)) = None /\
  actionStream (uiSession (step w DenyClicked))
    = (actionStream (uiSession w) ++ [denialEntry m (now w)])%list.
Proof.
  intros Hm. unfold step, handler, after. rewrite Hm.
  rewrite render_executorCalls, render_vncCalls, render_uiSession.
  repeat split.
Qed.

Lemma markTask_safetyModal tid g :
  keeps (fun w => safetyModal (uiSession w)) (markTask tid g).
Proof. intro w. reflexivity. Qed.

Lemma markTask_executorCalls tid g : keeps executorCalls (markTask tid g).
Proof. intro w. reflexivity. Qed.

Lemma markTask_actionStream tid g :
  keeps (fun w => actionStream (uiSession w)) (markTask tid g).
Proof. intro w. reflexivity. Qed.

(** C2, amended.  For a response made of a descriptor to confirm
    followed by an allowed one, the task runner opens the request for
    the first and goes on without waiting: the second descriptor is
    executed during the submission, while the request is pending, and
    the task is marked completed.  The first descriptor is executed
    only by a later approval, and not by a denial. *)
Theorem gate_does_not_suspend_batch
    (w : World) (s : AgentSession) (d : string) (fc1 fc2 : FunctionCall) :
  currentSession (uiSession w) = Some s ->
  apiKey (geminiConfig w) <> "" ->
  decisionIs (parseFunctionCall fc1) require_confirmation = true ->
  decisionIs (parseFunctionCall fc2) allowed = true ->
  let a1 := parseFunctionCall fc1 in
  let a2 := parseFunctionCall fc2 in
  let w' := step w (TaskSubmitted d (Response (Some [fc1; fc2]))) in
  safetyModal (uiSession w') = Some (newModal a1 (orUndefined (captured w))) /\
  executorCalls w' = (executorCalls w ++ [a2])%list /\
  option_map status (lastTask w') = Some TaskStatus.completed /\
  executorCalls (step w' ApproveClicked)
    = (executorCalls w ++ [a2; a1])%list /\
  executorCalls (step w' DenyClicked) = (executorCalls w ++ [a2])%list.
Proof.
  intros Hs Hkey H1 H2 a1 a2 w'.
  assert (H2' : decisionIs a2 require_confirmation = false)
    by (apply (decision_exclusive a2 allowed); [discriminate | exact H2]).
  assert (Hmodal : safetyModal (uiSession w')
                   = Some (newModal a1 (orUndefined (captured w)))).
  { subst w'. unfold step, handler, after at 1.
    rewrite (handleTaskSubmit_response w s d _ Hs Hkey). cbn [snd].
    rewrite render_uiSession, markTask_safetyModal.
    change (callsOf (Some [fc1; fc2])) with [a1; a2].
    rewrite batch_cons, batch_cons, batch_nil.
    rewrite (processAction_direct a2) by exact H2'.
    rewrite (keeps_executeAction (fun w => safetyModal (uiSession w)))
      by reflexivity.
    rewrite (keeps_announce (fun w => safetyModal (uiSession w))).
    unfold after at 1. rewrite (processAction_gate a1) by exact H1.
    reflexivity. }
  assert (Hcalls : executorCalls w' = (executorCalls w ++ [a2])%list).
  { subst w'. unfold step, handler, after at 1.
    rewrite (handleTaskSubmit_response w s d _ Hs Hkey). cbn [snd].
    rewrite render_executorCalls, markTask_executorCalls.
    change (callsOf (Some [fc1; fc2])) with [a1; a2].
    rewrite batch_cons, batch_cons, batch_nil.
    rewrite (unconfirmed_action_is_executed a2) by exact H2'.
    unfold after at 1. rewrite (processAction_gate a1) by exact H1.
    cbn [snd]. simpl_world.
    rewrite (keeps_announce executorCalls).
    now rewrite prepared_executorCalls. }
  split; [exact Hmodal|]. split; [exact Hcalls|].
  split; [apply (response_completes w s d _ Hs Hkey)|].
  destruct (approve_executes w' _ Hmodal) as [Ha _].
  destruct (deny_skips w' _ Hmodal) as [Hd _].
  rewrite Ha, Hd, Hcalls. split; [|reflexivity].
  now rewrite <- app_assoc.
Qed.

Lemma gate_does_not_suspend_batch_witness :
  let w := demoWorld (Some healthyRFB) in
  let w' := step w (TaskSubmitted "pay"
                      (Response (Some [confirmClick; allowedClick]))) in
  executorCalls w' = [parseFunctionCall allowedClick] /\
  executorCalls (step w' ApproveClicked)
    = [parseFunctionCall allowedClick; parseFunctionCall confirmClick].
Proof.
  pose proof (gate_does_not_suspend_batch (demoWorld (Some healthyRFB))
                demoSession "pay" confirmClick allowedClick) as H.
  destruct H as (_ & H2 & _ & H4 & _).
  - reflexivity.
  - discriminate.
  - reflexivity.
  - reflexivity.
  - split; [exact H2 | exact H4].
Defined.

(** ** C5: a second request while one is pending *)

(** The requests the approval gate holds: the slot
    [uiSession.safetyModal]. *)
Definition pendingRequests (w : World) : list SafetyModalType :=
  match safetyModal (uiSession w) with
  | Some m => [m]
  | None => []
  end.

Definition isError (e : AIAction) : bool :=
  match type e with
  | AIActionType.error => true
  | _ => false
  end.

Definition secondConfirmClick : FunctionCall :=
  clickCall require_confirmation 50 60.

(** C5, as stated, fails in its second half: with the request for one
    click pending, the request for another click is opened all the
    same; it takes the place of the first, which is neither executed
    nor denied (no error entry is logged). *)
Lemma pending_request_is_replaced :
  let a1 := parseFunctionCall confirmClick in
  let a2 := parseFunctionCall secondConfirmClick in
  let w1 := step (demoWorld (Some healthyRFB))
              (TaskSubmitted "first" (Response (Some [confirmClick]))) in
  let w2 := step w1
              (TaskSubmitted "second" (Response (Some [secondConfirmClick]))) in
  option_map modal_action (safetyModal (uiSession w1)) = Some a1 /\
  option_map modal_action (safetyModal (uiSession w2)) = Some a2 /\
  executorCalls w2 = [] /\
  filter isError (actionStream (uiSession w2)) = [].
Proof. vm_compute. repeat split. Qed.

Definition announcement (action : ComputerAction) (t : Z) : AIAction :=
  {| id := "action-" ++ string_of_Z t;
     type := if decisionIs action require_confirmation
             then AIActionType.safety_check else AIActionType.action;
     content := "Executing: " ++ name action;
     entry_args := Some (args action);
     timestamp := t |}.

(** C5, amended.  The gate is one slot, so at most one request is
    pending at any instant.  Opening a request while another is pending
    does not fail: [processAction] returns normally and the new request
    replaces the pending one, whose descriptor is not executed and for
    which nothing but the announcement of the new descriptor is
    logged. *)
Theorem new_request_replaces_pending
    (w : World) (m0 : SafetyModalType) (action : ComputerAction)
    (shot : option string) :
  safetyModal (uiSession w) = Some m0 ->
  decisionIs action require_confirmation = true ->
  let w' := after (processAction action shot) w in
  fst (processAction action shot w) = Returned tt /\
  pendingRequests w' = [newModal action shot] /\
  executorCalls w' = executorCalls w /\
  vncCalls w' = vncCalls w /\
  actionStream (uiSession w')
    = (actionStream (uiSession w) ++ [announcement action (now w)])%list /\
  (forall w0 : World, (List.length (pendingRequests w0) <= 1)%nat).
Proof.
  intros _ Hd w'. subst w'. unfold after, pendingRequests.
  rewrite (processAction_gate action shot w Hd).
  unfold announce, announcement. rewrite Hd. run_handlers.
  repeat split.
  intros w0. destruct (safetyModal (uiSession w0)); simpl; lia.
Qed.

Lemma new_request_replaces_pending_witness :
  let w1 := step (demoWorld (Some healthyRFB))
              (TaskSubmitted "first" (Response (Some [confirmClick]))) in
  let a2 := parseFunctionCall secondConfirmClick in
  pendingRequests (after (processAction a2 None) w1) = [newModal a2 None].
Proof.
  pose proof (new_request_replaces_pending
                (step (demoWorld (Some healthyRFB))
                   (TaskSubmitted "first" (Response (Some [confirmClick]))))
                (newModal (parseFunctionCall confirmClick) None)
                (parseFunctionCall secondConfirmClick) None) as H.
  destruct H as (_ & H2 & _).
  - reflexivity.
  - reflexivity.
  - exact H2.
Defined.

(** ** The whole batch: what reaches the executor, what is logged *)

(** The descriptors that go to the executor during the submission. *)
Definition direct (action : ComputerAction) : bool :=
  negb (decisionIs action require_confirmation).

Lemma processAction_executes_by_decision (action : ComputerAction) shot w :
  executorCalls (after (processAction action shot) w)
  = if decisionIs action require_confirmation then executorCalls w
    else (executorCalls w ++ [action])%list.
Proof.
  destruct (decisionIs action require_confirmation) eqn:Hd.
  - unfold after. rewrite (processAction_gate action shot w Hd). reflexivity.
  - apply unconfirmed_action_is_executed. exact Hd.
Qed.

Lemma batch_executorCalls l shot : forall w,
  executorCalls (after (batch l shot) w)
  = (executorCalls w ++ filter direct l)%list.
Proof.
  induction l as [|a l IH]; intros w.
  - rewrite batch_nil. cbn. now rewrite app_nil_r.
  - rewrite batch_cons, IH, processAction_executes_by_decision.
    cbn [filter]. unfold direct at 2.
    destruct (decisionIs a require_confirmation); cbn [negb].
    + reflexivity.
    + now rewrite <- app_assoc.
Qed.

Lemma batch_app l1 l2 shot w :
  after (batch (l1 ++ l2) shot) w
  = after (batch l2 shot) (after (batch l1 shot) w).
Proof.
  revert w. induction l1 as [|a l1 IH]; intros w; [reflexivity|].
  cbn [app]. now rewrite !batch_cons, IH.
Qed.

Definition stream (w : World) : list AIAction := actionStream (uiSession w).

(** [grows m]: the handler [m] only appends to the stream. *)
Definition grows {A} (m : M A) : Prop :=
  forall w, exists l, stream (after m w) = (stream w ++ l)%list.

Lemma grows_keeps {A} (m : M A) : keeps stream m -> grows m.
Proof. intros H w. exists []. rewrite app_nil_r. apply H. Qed.

Lemma grows_bind {A B} (m : M A) (k : A -> M B) :
  grows m -> (forall a, grows (k a)) -> grows (bind m k).
Proof.
  intros Hm Hk w. unfold after, bind.
  destruct (Hm w) as [l1 H1]. unfold after in H1.
  destruct (m w) as [[a|e] w1]; cbn [snd] in *.
  - destruct (Hk a w1) as [l2 H2]. unfold after in H2.
    exists (l1 ++ l2)%list. now rewrite H2, H1, app_assoc.
  - exists l1. exact H1.
Qed.

Lemma grows_tryCatch {A} (m : M A) (h : JSError -> M A) :
  grows m -> (forall e, grows (h e)) -> grows (tryCatch m h).
Proof.
  intros Hm Hh w. unfold after, tryCatch.
  destruct (Hm w) as [l1 H1]. unfold after in H1.
  destruct (m w) as [[a|e] w1]; cbn [snd] in *.
  - exists l1. exact H1.
  - destruct (Hh e w1) as [l2 H2]. unfold after in H2.
    exists (l1 ++ l2)%list. now rewrite H2, H1, app_assoc.
Qed.

Lemma grows_forEach {A} (l : list A) (body : A -> M unit) :
  (forall a, grows (body a)) -> grows (forEach l body).
Proof.
  intros H. induction l as [|a l IH]; cbn [forEach].
  - apply grows_keeps. intro w. reflexivity.
  - apply grows_bind; [apply H | intros _; exact IH].
Qed.

Lemma grows_logEntry p ty text a : grows (logEntry p ty text a).
Proof. intro w. eexists. reflexivity. Qed.

Lemma keeps_stream_sendToClient c : keeps stream (sendToClient c).
Proof.
  intro w. unfold after, sendToClient, stream.
  destruct w as [u cs g tl [rfb|] cv st n ct ec vc rs]; simpl;
    [destruct (transportError rfb c)|]; reflexivity.
Qed.

Lemma keeps_stream_dispatch action : keeps stream (dispatch action).
Proof.
  unfold dispatch, sendMouseEvent, sendKeyboardEvent.
  repeat
    match goal with
    | |- keeps _ (if ?b then _ else _) => destruct b
    | |- keeps _ (match ?o with _ => _ end) => destruct o
    | |- keeps _ (bind _ _) => apply keeps_bind; [|intros _]
    | |- keeps _ (sendToClient _) => apply keeps_stream_sendToClient
    | |- keeps _ (sleep _) => intro; reflexivity
    | |- keeps _ (ret _) => apply keeps_ret
    | |- keeps _ (throw _) => apply keeps_throw
    end.
Qed.

Lemma grows_executeAction action : grows (executeAction action).
Proof.
  unfold executeAction, tryExecute, perform.
  apply grows_tryCatch; [|intros e; apply grows_logEntry].
  apply grows_bind; [apply grows_keeps; intro; reflexivity | intros _].
  apply grows_bind; [apply grows_logEntry | intros _].
  apply grows_bind; [apply grows_keeps, keeps_stream_dispatch | intros _].
  apply grows_keeps. intro. reflexivity.
Qed.

Lemma grows_processAction action shot : grows (processAction action shot).
Proof.
  unfold processAction.
  apply grows_bind; [apply grows_logEntry | intros _].
  destruct (decisionIs action require_confirmation).
  - apply grows_keeps. intro. reflexivity.
  - apply grows_executeAction.
Qed.

Lemma grows_batch l shot : grows (batch l shot).
Proof. apply grows_forEach. intro a. apply grows_processAction. Qed.

(** ** C4: an error in the executor *)

(** [String(error)] at its edges: an empty message, an empty name. *)
Example String_of_error_edges :
  String_of_error (Error "") = "Error" /\
  String_of_error {| error_name := ""; message := "closed" |} = "closed" /\
  String_of_error (TypeError "keys is undefined")
  = "TypeError: keys is undefined".
Proof. repeat split. Qed.

Definition failureEntry (action : ComputerAction) (e : JSError) (t : Z)
    : AIAction :=
  {| id := "error-" ++ string_of_Z t; type := AIActionType.error;
     content := "Failed to execute " ++ name action ++ ": " ++ message e;
     entry_args := None; timestamp := t |}.

Lemma executeAction_catches (action : ComputerAction) (w : World) (e : JSError) :
  fst (tryExecute action w) = Thrown e ->
  fst (executeAction action w) = Returned tt /\
  exists pre t,
    actionStream (uiSession (after (executeAction action) w))
    = (pre ++ [failureEntry action e t])%list.
Proof.
  intros H. unfold executeAction, after, tryCatch.
  destruct (tryExecute action w) as [[[]|e'] w1]; cbn [fst] in H;
    [discriminate|]. injection H as ->.
  split; [reflexivity|].
  exists (actionStream (uiSession w1)), (now w1). reflexivity.
Qed.

(** The request to the model fails: the task is marked failed. *)
Lemma handleTaskSubmit_failure w s d (e : JSError) :
  currentSession (uiSession w) = Some s ->
  apiKey (geminiConfig w) <> "" ->
  handleTaskSubmit d (Failure e) w
  = (Returned tt,
     after (markTask (task_id (submittedTask w s d))
              (failedWith (String_of_error e)))
       (after (logEntry "error" AIActionType.error
                 ("Task failed: " ++ message e) None)
              (prepared w s d))).
Proof.
  intros Hs Hkey.
  assert (Hk : (apiKey (geminiConfig w) === "") = false)
    by (apply String.eqb_neq; exact Hkey).
  unfold handleTaskSubmit, prepared, captured, sendRequest, submittedTask.
  run_handlers. rewrite Hs. run_handlers.
  destruct (truthy (currentScreenshot w)) eqn:Hc; run_handlers;
    [rewrite Hc | destruct (truthy (canvasRef w)) eqn:Hv];
    run_handlers; rewrite Hk; reflexivity.
Qed.

Definition taskFailedEntry (e : JSError) (t : Z) : AIAction :=
  {| id := "error-" ++ string_of_Z t; type := AIActionType.error;
     content := "Task failed: " ++ message e;
     entry_args := None; timestamp := t |}.

Lemma lastTask_failed w2 t q err :
  taskQueue (uiSession w2) = (q ++ [t])%list ->
  lastTask (after (markTask (task_id t) (failedWith err)) w2)
  = Some (failedWith err t).
Proof.
  intros Hq. unfold lastTask, markTask. run_handlers.
  rewrite Hq. apply last_marked.
Qed.

(** C4, as stated, fails: with a client whose send raises a transport
    error, the executor logs the error, but the task runner marks the
    task completed, not failed. *)
Lemma executor_error_leaves_task_completed :
  let w' := step (demoWorld (Some brokenRFB))
              (TaskSubmitted "click" (Response (Some [allowedClick]))) in
  map content (filter isError (actionStream (uiSession w')))
    = ["Failed to execute click_at: WebSocket is closed"] /\
  option_map status (lastTask w') = Some TaskStatus.completed /\
  option_map task_error (lastTask w') = Some None.
Proof. vm_compute. repeat split. Qed.

(** C4, amended.  When the execution of an action raises an error,
    the executor appends an [error] entry naming the action and the
    message, and returns normally: the task runner is not told.  The
    runner therefore goes through the whole response -- after a
    descriptor whose execution failed, the descriptors that follow it
    are handed to the executor as well, the entry of the failure
    staying in the stream -- and marks the task completed, without an
    error text.  It marks a task failed when the request to the model
    fails. *)
Theorem executor_error_is_logged_not_propagated
    (w : World) (s : AgentSession) (d : string) :
  currentSession (uiSession w) = Some s ->
  apiKey (geminiConfig w) <> "" ->
  (forall action w1 e,
     fst (tryExecute action w1) = Thrown e ->
     fst (executeAction action w1) = Returned tt /\
     exists pre t,
       actionStream (uiSession (after (executeAction action) w1))
       = (pre ++ [failureEntry action e t])%list) /\
  (forall functionCalls,
     let w' := step w (TaskSubmitted d (Response functionCalls)) in
     option_map status (lastTask w') = Some TaskStatus.completed /\
     option_map task_error (lastTask w') = Some None /\
     executorCalls w'
     = (executorCalls w ++ filter direct (callsOf functionCalls))%list) /\
  (forall (before : list FunctionCall) (fc : FunctionCall)
          (rest : list FunctionCall) (e : JSError),
     let a := parseFunctionCall fc in
     let shot := orUndefined (captured w) in
     let reached :=
       after (announce a)
         (after (batch (map parseFunctionCall before) shot)
            (prepared w s d)) in
     direct a = true ->
     fst (tryExecute a reached) = Thrown e ->
     let w' := step w (TaskSubmitted d
                         (Response (Some (before ++ fc :: rest)%list))) in
     (exists t, In (failureEntry a e t) (actionStream (uiSession w'))) /\
     executorCalls w'
     = (executorCalls w ++ filter direct (map parseFunctionCall before)
          ++ a :: filter direct (map parseFunctionCall rest))%list /\
     option_map status (lastTask w') = Some TaskStatus.completed) /\
  (forall e,
     let w' := step w (TaskSubmitted d (Failure e)) in
     option_map status (lastTask w') = Some TaskStatus.failed /\
     option_map task_error (lastTask w') = Some (Some (String_of_error e)) /\
     actionStream (uiSession w')
     = (actionStream (uiSession (prepared w s d))
          ++ [taskFailedEntry e (now w)])%list /\
     executorCalls w' = executorCalls w).
Proof.
  intros Hs Hkey.
  assert (Hcalls : forall functionCalls,
            executorCalls (step w (TaskSubmitted d (Response functionCalls)))
            = (executorCalls w ++ filter direct (callsOf functionCalls))%list).
  { intros functionCalls. unfold step, handler, after at 1.
    rewrite (handleTaskSubmit_response w s d functionCalls Hs Hkey).
    cbn [snd].
    rewrite render_executorCalls, markTask_executorCalls, batch_executorCalls.
    now rewrite prepared_executorCalls. }
  split; [|split; [|split]].
  - intros action w1 e. apply executeAction_catches.
  - intros functionCalls w'. subst w'.
    split; [apply (response_completes w s d _ Hs Hkey)|].
    split; [|apply Hcalls].
    unfold step, handler, after at 1.
    rewrite (handleTaskSubmit_response w s d functionCalls Hs Hkey).
    cbn [snd]. rewrite lastTask_render.
    erewrite lastTask_completed; [reflexivity|].
    rewrite batch_taskQueue. apply prepared_taskQueue.
  - intros before fc rest e a shot reached Hdirect Hthrow w'.
    split; [|split].
    + destruct (executeAction_catches a reached e Hthrow)
        as (_ & front & t & Hfail).
      exists t. subst w'. unfold step, handler, after at 1.
      rewrite (handleTaskSubmit_response w s d _ Hs Hkey). cbn [snd].
      rewrite render_uiSession, markTask_actionStream.
      change (callsOf (Some (before ++ fc :: rest)%list))
        with (map parseFunctionCall (before ++ fc :: rest)%list).
      rewrite map_app. cbn [map]. fold a. fold shot.
      rewrite batch_app, batch_cons.
      rewrite (processAction_direct a)
        by (unfold direct in Hdirect;
            destruct (decisionIs a require_confirmation);
            [discriminate | reflexivity]).
      fold reached.
      destruct (grows_batch (map parseFunctionCall rest) shot
                  (after (executeAction a) reached)) as [l Hl].
      unfold stream in Hl. rewrite Hl, Hfail.
      apply in_or_app. left. apply in_or_app. right. left. reflexivity.
    + subst w'. rewrite Hcalls.
      change (callsOf (Some (before ++ fc :: rest)%list))
        with (map parseFunctionCall (before ++ fc :: rest)%list).
      rewrite map_app, filter_app. cbn [map filter]. fold a.
      now rewrite Hdirect.
    + apply (response_completes w s d _ Hs Hkey).
  - intros e w'. subst w'. unfold step, handler, after.
    rewrite (handleTaskSubmit_failure w s d e Hs Hkey). cbn [snd].
    rewrite lastTask_render, render_uiSession, render_executorCalls.
    rewrite markTask_actionStream, markTask_executorCalls.
    rewrite (keeps_logEntry executorCalls), prepared_executorCalls.
    erewrite lastTask_failed.
    + repeat split. unfold taskFailedEntry. rewrite <- (prepared_now w s d).
      reflexivity.
    + rewrite (keeps_logEntry (fun w => taskQueue (uiSession w))).
      apply prepared_taskQueue.
Qed.

Lemma executor_error_is_logged_not_propagated_witness :
  let a := parseFunctionCall allowedClick in
  let b := parseFunctionCall blockedClick in
  let w := demoWorld (Some brokenRFB) in
  let w' := step w (TaskSubmitted "click"
                      (Response (Some [allowedClick; blockedClick]))) in
  fst (executeAction a w) = Returned tt /\
  (exists t, In (failureEntry a (Error "WebSocket is closed") t)
               (actionStream (uiSession w'))) /\
  executorCalls w' = [a; b] /\
  option_map status (lastTask w') = Some TaskStatus.completed.
Proof.
  pose proof (executor_error_is_logged_not_propagated
                (demoWorld (Some brokenRFB)) demoSession "click") as H.
  destruct H as (H1 & _ & H3 & _).
  - reflexivity.
  - discriminate.
  - assert (Hthrow : fst (tryExecute (parseFunctionCall allowedClick)
                                     (demoWorld (Some brokenRFB)))
                     = Thrown (Error "WebSocket is closed")) by reflexivity.
    split; [exact (proj1 (H1 _ _ _ Hthrow))|].
    destruct (H3 [] allowedClick [blockedClick]
                (Error "WebSocket is closed")) as (Hin & Hec & Hst).
    + reflexivity.
    + reflexivity.
    + split; [exact Hin|]. split; [exact Hec | exact Hst].
Defined.

(** ** The countdown of the approval dialog *)

Ltac unfold_step :=
  unfold step, handler, intervalActive, countdown, onDeny, onApprove, render.

Lemma second_counts_down w m t :
  safetyModal (uiSession w) = Some m ->
  timeLeft w = Some t ->
  1 < t ->
  step w SecondElapsed
  = with_timeLeft (Some (t - 1)) (with_now (now w + 1000) w).
Proof.
  intros Hm Ht Hlt. destruct w as [u cs g tl r cv st n ct ec vc rs].
  cbn in Hm, Ht. subst tl.
  assert (H0 : (0 <? t) = true) by (apply Z.ltb_lt; lia).
  assert (H1 : (t <=? 1) = false) by (apply Z.leb_gt; lia).
  unfold_step. run_handlers.
  repeat (first [rewrite Hm | rewrite H0 | rewrite H1]; run_handlers).
  reflexivity.
Qed.

(** At the last second the callback calls [onDeny]: the world is the
    one an explicit click on Deny gives at that instant. *)
Lemma second_auto_denies w m t :
  safetyModal (uiSession w) = Some m ->
  timeLeft w = Some t ->
  0 < t <= 1 ->
  step w SecondElapsed = step (with_now (now w + 1000) w) DenyClicked.
Proof.
  intros Hm Ht Hlt. destruct w as [u cs g tl r cv st n ct ec vc rs].
  cbn in Hm, Ht. subst tl.
  assert (H0 : (0 <? t) = true) by (apply Z.ltb_lt; lia).
  assert (H1 : (t <=? 1) = true) by (apply Z.leb_le; lia).
  unfold_step. run_handlers.
  repeat (first [rewrite Hm | rewrite H0 | rewrite H1]; run_handlers).
  reflexivity.
Qed.

(** With [timeLeft <= 0] no interval is installed: a second only
    moves the clock. *)
Lemma second_without_interval w m t :
  safetyModal (uiSession w) = Some m ->
  timeLeft w = Some t ->
  t <= 0 ->
  step w SecondElapsed = with_now (now w + 1000) w.
Proof.
  intros Hm Ht Hle. destruct w as [u cs g tl r cv st n ct ec vc rs].
  cbn in Hm, Ht. subst tl.
  assert (H0 : (0 <? t) = false) by (apply Z.ltb_ge; lia).
  unfold_step. run_handlers.
  repeat (first [rewrite Hm | rewrite H0]; run_handlers).
  reflexivity.
Qed.

Lemma run_cons w ev evs : run w (ev :: evs) = run (step w ev) evs.
Proof. reflexivity. Qed.

Lemma run_snoc w evs ev : run w (evs ++ [ev]) = step (run w evs) ev.
Proof. unfold run. now rewrite fold_left_app. Qed.

Lemma repeat_snoc {A} (a : A) (k : nat) :
  repeat a (S k) = (repeat a k ++ [a])%list.
Proof. induction k as [|k IH]; simpl; [reflexivity | now rewrite <- IH]. Qed.

Lemma countdown_runs (k : nat) : forall w m t,
  safetyModal (uiSession w) = Some m ->
  timeLeft w = Some t ->
  Z.of_nat k < t ->
  run w (repeat SecondElapsed k)
  = with_timeLeft (Some (t - Z.of_nat k))
      (with_now (now w + 1000 * Z.of_nat k) w).
Proof.
  induction k as [|k IH]; intros w m t Hm Ht Hlt.
  - destruct w as [u cs g tl r cv st n ct ec vc rs]. cbn in Ht. subst tl.
    unfold run, with_timeLeft, with_now. simpl_world. cbn [repeat fold_left].
    f_equal; [f_equal|]; lia.
  - cbn [repeat]. rewrite run_cons.
    rewrite (second_counts_down w m t Hm Ht) by lia.
    rewrite (IH _ m (t - 1)); [| exact Hm | reflexivity | lia].
    destruct w as [u cs g tl r cv st n ct ec vc rs].
    unfold with_timeLeft, with_now. simpl_world.
    f_equal; [f_equal|]; lia.
Qed.

Lemma idle_seconds (k : nat) : forall w m t,
  safetyModal (uiSession w) = Some m ->
  timeLeft w = Some t ->
  t <= 0 ->
  run w (repeat SecondElapsed k) = with_now (now w + 1000 * Z.of_nat k) w.
Proof.
  induction k as [|k IH]; intros w m t Hm Ht Hle.
  - destruct w as [u cs g tl r cv st n ct ec vc rs].
    unfold run, with_now. simpl_world. cbn [repeat fold_left]. f_equal. lia.
  - cbn [repeat]. rewrite run_cons.
    rewrite (second_without_interval w m t Hm Ht Hle).
    rewrite (IH _ m t); [| exact Hm | exact Ht | exact Hle].
    destruct w as [u cs g tl r cv st n ct ec vc rs].
    unfold with_now. simpl_world. f_equal. lia.
Qed.

(** ** C6: the countdown from 30 *)

(** The world once [processAction] has opened the dialog for a
    descriptor to confirm and the dialog is mounted. *)
Definition opened (action : ComputerAction) (shot : option string)
    (w : World) : World :=
  render (after (processAction action shot) w).

Lemma opened_world action shot w :
  timeLeft w = None ->
  decisionIs action require_confirmation = true ->
  opened action shot w
  = with_timeLeft (Some 30)
      (with_uiSession (set_safetyModal (Some (newModal action shot)))
         (after (announce action) w)).
Proof.
  intros Ht Hd. unfold opened, after at 1.
  rewrite (processAction_gate action shot w Hd). cbn [snd].
  unfold render, announce. run_handlers. rewrite Ht. reflexivity.
Qed.




(** ** C10: a timeout that is not positive *)

(** The world once a request [m] has been put in the slot and the
    dialog is mounted. *)
Definition shown (m : SafetyModalType) (w : World) : World :=
  render (after (setUISession (set_safetyModal (Some m))) w).

(** C10. When the dialog is mounted for a request whose timeout is
    zero or negative, no interval is installed: however many seconds
    pass the request stays pending, nothing is logged or executed, and
    only a click resolves it (Deny clears it; Approve clears it and
    runs the descriptor). *)
Theorem nonpositive_timeout_never_auto_denies
    (w : World) (m : SafetyModalType) (k : nat) :
  timeLeft w = None ->
  timeout m <= 0 ->
  let wk := run (shown m w) (repeat SecondElapsed k) in
  safetyModal (uiSession wk) = Some m /\
  timeLeft wk = Some (timeout m) /\
  now wk = now w + 1000 * Z.of_nat k /\
  actionStream (uiSession wk) = actionStream (uiSession w) /\
  executorCalls wk = executorCalls w /\
  safetyModal (uiSession (step wk DenyClicked)) = None /\
  executorCalls (step wk DenyClicked) = executorCalls w /\
  safetyModal (uiSession (step wk ApproveClicked)) = None /\
  executorCalls (step wk ApproveClicked)
    = (executorCalls w ++ [modal_action m])%list.
Proof.
  intros Ht Hle wk.
  assert (Hs : shown m w
               = with_timeLeft (Some (timeout m))
                   (with_uiSession (set_safetyModal (Some m)) w)).
  { unfold shown, render. run_handlers. rewrite Ht. reflexivity. }
  assert (Hwk : wk = with_now (now w + 1000 * Z.of_nat k) (shown m w)).
  { subst wk. rewrite (idle_seconds k _ m (timeout m)); try exact Hle.
    - rewrite Hs. reflexivity.
    - rewrite Hs. reflexivity.
    - rewrite Hs. reflexivity. }
  assert (Hm : safetyModal (uiSession wk) = Some m)
    by (rewrite Hwk, Hs; reflexivity).
  assert (Hec : executorCalls wk = executorCalls w)
    by (rewrite Hwk, Hs; reflexivity).
  destruct (deny_skips wk m Hm) as (Hd1 & _ & Hd2 & _).
  destruct (approve_executes wk m Hm) as (Ha1 & Ha2).
  rewrite Hd1, Hd2, Ha1, Ha2, Hec.
  rewrite Hwk, Hs. simpl_world. repeat split.
Qed.

Lemma nonpositive_timeout_never_auto_denies_witness :
  let m := {| modal_action := parseFunctionCall confirmClick;
              screenshot := None; modal_reasoning := "model note";
              timeout := 0 |} in
  let wk := run (shown m (demoWorld (Some healthyRFB)))
              (repeat SecondElapsed 120) in
  safetyModal (uiSession wk) = Some m /\ timeLeft wk = Some 0.
Proof.
  pose proof (nonpositive_timeout_never_auto_denies
                (demoWorld (Some healthyRFB))
                {| modal_action := parseFunctionCall confirmClick;
                   screenshot := None; modal_reasoning := "model note";
                   timeout := 0 |} 120) as H.
  destruct H as (H1 & H2 & _).
  - reflexivity.
  - cbn. lia.
  - split; [exact H1 | exact H2].
Defined.

(** ** C3: emergency stop with a request pending *)

Definition emergencyEntry (t : Z) : AIAction :=
  {| id := "emergency-" ++ string_of_Z t; type := AIActionType.error;
     content := "Emergency stop activated by user";
     entry_args := None; timestamp := t |}.

(** The events that can still arrive once the gate is idle and no
    task is submitted: clicks on a dialog button, seconds, and capture
    timers. *)
Definition quiet (ev : Event) : bool :=
  match ev with
  | ApproveClicked | DenyClicked | SecondElapsed | CaptureTimerFired => true
  | _ => false
  end.

Lemma idle_step w ev :
  safetyModal (uiSession w) = None ->
  quiet ev = true ->
  safetyModal (uiSession (step w ev)) = None /\
  executorCalls (step w ev) = executorCalls w /\
  vncCalls (step w ev) = vncCalls w /\
  taskQueue (uiSession (step w ev)) = taskQueue (uiSession w).
Proof.
  intros Hm Hq. destruct w as [u cs g tl r cv st n ct ec vc rs].
  cbn in Hm.
  destruct ev; try discriminate Hq; unfold_step; unfold captureAfterAction;
    run_handlers; rewrite ?Hm; run_handlers; rewrite ?Hm;
    try (repeat split; assumption).
  destruct ct as [|ct]; run_handlers; rewrite ?Hm.
  - repeat split; assumption.
  - destruct (truthy cv); run_handlers; rewrite ?Hm; repeat split; assumption.
Qed.

Lemma idle_run evs : forall w,
  safetyModal (uiSession w) = None ->
  forallb quiet evs = true ->
  executorCalls (run w evs) = executorCalls w /\
  vncCalls (run w evs) = vncCalls w /\
  taskQueue (uiSession (run w evs)) = taskQueue (uiSession w).
Proof.
  induction evs as [|ev evs IH]; intros w Hm Hq.
  - repeat split.
  - cbn [forallb] in Hq. apply andb_prop in Hq as [Hev Hq].
    destruct (idle_step w ev Hm Hev) as (Hm' & He & Hv & Ht).
    rewrite run_cons. destruct (IH _ Hm' Hq) as (He' & Hv' & Ht').
    rewrite He', Hv', Ht'. repeat split; assumption.
Qed.

(** The world in the middle of a batch: the request for the first
    descriptor is open, the task is still in progress. *)
Definition midBatch : World :=
  render (after (processAction (parseFunctionCall confirmClick) None)
            (prepared (demoWorld (Some healthyRFB)) demoSession "pay")).

(** C3, as stated, fails: an emergency stop with a request pending
    leaves the status of the task as it was ([in_progress] in the
    middle of a batch, [completed] once the batch is over), never
    [cancelled]; and the only error entry is the one of the stop, no
    denial. *)
Lemma emergency_stop_does_not_cancel :
  let a1 := parseFunctionCall confirmClick in
  let stopped := step midBatch EmergencyStopClicked in
  let w1 := step (demoWorld (Some healthyRFB))
              (TaskSubmitted "pay" (Response (Some [confirmClick]))) in
  option_map modal_action (safetyModal (uiSession midBatch)) = Some a1 /\
  option_map status (lastTask midBatch) = Some TaskStatus.in_progress /\
  option_map status (lastTask stopped) = Some TaskStatus.in_progress /\
  map content (filter isError (actionStream (uiSession stopped)))
    = ["Emergency stop activated by user"] /\
  option_map modal_action (safetyModal (uiSession w1)) = Some a1 /\
  option_map status (lastTask (step w1 EmergencyStopClicked))
    = Some TaskStatus.completed.
Proof. vm_compute. repeat split. Qed.

(** C3, amended.  An emergency stop that arrives while a request is
    pending clears the gate without running the approve or the deny
    callback (the only entry appended is the one of the stop),
    disconnects the remote session and marks the session stopped.  The
    held descriptor is not executed, then or on any later click or
    second.  The task queue is left as it is: no status changes. *)
Theorem emergency_stop_discards_request (w : World) (m : SafetyModalType) :
  safetyModal (uiSession w) = Some m ->
  let w' := step w EmergencyStopClicked in
  safetyModal (uiSession w') = None /\
  timeLeft w' = None /\
  rfbRef w' = None /\
  currentSession (uiSession w')
    = option_map stoppedSession (currentSession (uiSession w)) /\
  actionStream (uiSession w')
    = (actionStream (uiSession w) ++ [emergencyEntry (now w)])%list /\
  taskQueue (uiSession w') = taskQueue (uiSession w) /\
  executorCalls w' = executorCalls w /\
  vncCalls w' = vncCalls w /\
  (forall evs, forallb quiet evs = true ->
     executorCalls (run w' evs) = executorCalls w /\
     vncCalls (run w' evs) = vncCalls w /\
     taskQueue (uiSession (run w' evs)) = taskQueue (uiSession w)).
Proof.
  intros Hm w'.
  assert (H : safetyModal (uiSession w') = None /\
              timeLeft w' = None /\
              rfbRef w' = None /\
              currentSession (uiSession w')
                = option_map stoppedSession (currentSession (uiSession w)) /\
              actionStream (uiSession w')
                = (actionStream (uiSession w) ++ [emergencyEntry (now w)])%list /\
              taskQueue (uiSession w') = taskQueue (uiSession w) /\
              executorCalls w' = executorCalls w /\
              vncCalls w' = vncCalls w).
  { subst w'. destruct w as [u cs g tl [rfb|] cv st n ct ec vc rs];
      unfold_step; unfold emergencyStop, disconnect; run_handlers;
      repeat split. }
  destruct H as (H1 & H2 & H3 & H4 & H5 & H6 & H7 & H8).
  repeat (split; [assumption|]).
  intros evs Hq. destruct (idle_run evs w' H1 Hq) as (He & Hv & Ht).
  rewrite He, Hv, Ht. repeat split; assumption.
Qed.

Lemma emergency_stop_discards_request_witness :
  let w' := step midBatch EmergencyStopClicked in
  safetyModal (uiSession w') = None /\
  executorCalls (run w' [ApproveClicked; SecondElapsed]) = [].
Proof.
  pose proof (emergency_stop_discards_request midBatch
                (newModal (parseFunctionCall confirmClick) None)) as H.
  destruct H as (H1 & _ & _ & _ & _ & _ & _ & _ & H9).
  - reflexivity.
  - split; [exact H1|].
    exact (proj1 (H9 [ApproveClicked; SecondElapsed] eq_refl)).
Defined.

(** ** C7: the risk classifier *)

Lemma toLowerCase_app (a b : string) :
  toLowerCase (a ++ b) = toLowerCase a ++ toLowerCase b.
Proof. induction a as [|c a IH]; simpl; [reflexivity | now rewrite IH]. Qed.

(** [hasChar c s]: the character [c] occurs in [s]. *)
Fixpoint hasChar (c : ascii) (s : string) : bool :=
  match s with
  | EmptyString => false
  | String d rest => Ascii.eqb d c || hasChar c rest
  end.

(** A word without [c] cannot reach over a [c]. *)
Lemma prefix_cut (c : ascii) (b : string) : forall k x : string,
  hasChar c k = false ->
  String.prefix k (x ++ String c b) = String.prefix k x.
Proof.
  intros k x; revert k. induction x as [|d x IH]; intros k Hk.
  - destruct k as [|e k]; [reflexivity|]. cbn in Hk.
    apply orb_false_elim in Hk as [Hec _]. cbn.
    destruct (Ascii.ascii_dec e c) as [->|ne]; [|reflexivity].
    now rewrite Ascii.eqb_refl in Hec.
  - destruct k as [|e k]; [reflexivity|]. cbn in Hk.
    apply orb_false_elim in Hk as [_ Hk]. cbn.
    destruct (Ascii.ascii_dec e d); [apply IH; exact Hk | reflexivity].
Qed.

Lemma includes_split (c : ascii) (k a b : string) :
  k <> "" ->
  hasChar c k = false ->
  includes (a ++ String c b) k = includes a k || includes b k.
Proof.
  intros Hne Hk. induction a as [|d a IH].
  - cbn [append includes].
    change (String c b) with ("" ++ String c b) at 1.
    rewrite (prefix_cut c b k "" Hk).
    destruct k as [|e k]; [congruence | reflexivity].
  - change (String d a ++ String c b) with (String d (a ++ String c b)).
    cbn [includes]. rewrite IH.
    change (String d (a ++ String c b)) with (String d a ++ String c b).
    rewrite (prefix_cut c b k (String d a) Hk).
    now rewrite orb_assoc.
Qed.

(** The separating space does not matter to the scan: no keyword
    holds a space or a brace, and the serialization of an object
    starts with a brace. *)
Lemma separator_immaterial (action : ComputerAction) (risk : string) :
  In risk highRiskActions ->
  includes (actionStr action) risk
  = includes (toLowerCase (name action ++ JSON_stringify (JObj (args action))))
      risk.
Proof.
  intros Hin. unfold actionStr.
  assert (Hobj : exists rest,
             JSON_stringify (JObj (args action)) = String "{" rest)
    by (eexists; reflexivity).
  destruct Hobj as [rest ->].
  rewrite !toLowerCase_app.
  change (toLowerCase (String "{" rest))
    with (String "{" (toLowerCase rest)).
  change (toLowerCase " " ++ String "{" (toLowerCase rest))
    with (String " " (String "{" (toLowerCase rest))).
  assert (Hk : risk <> "" /\ hasChar " " risk = false
               /\ hasChar "{" risk = false).
  { unfold highRiskActions in Hin. simpl in Hin.
    repeat (destruct Hin as [<- | Hin];
            [repeat split; [discriminate | reflexivity..] |]).
    contradiction. }
  destruct Hk as (Hne & Hsp & Hbr).
  rewrite (includes_split " " risk _ _ Hne Hsp).
  rewrite (includes_split "{" risk _ _ Hne Hbr).
  change (String "{" (toLowerCase rest))
    with ("" ++ String "{" (toLowerCase rest)).
  rewrite (includes_split "{" risk "" _ Hne Hbr).
  destruct risk; [congruence | reflexivity].
Qed.

(** C7. [getRiskLevel] is a function of the descriptor alone.  It
    answers [high] exactly when a keyword of the fixed list occurs in
    the lower-cased text made of the action name, a space and the JSON
    serialization of the arguments (equivalently, in the lower-cased
    concatenation of the name and the serialization), and [medium]
    otherwise.  Whether [processAction] executes a descriptor depends
    on its decision only, not on this level. *)
Theorem risk_level_is_keyword_scan (action : ComputerAction) :
  (getRiskLevel action = high <->
   exists risk pre post,
     In risk highRiskActions /\
     toLowerCase (name action ++ " " ++ JSON_stringify (JObj (args action)))
     = pre ++ risk ++ post) /\
  (getRiskLevel action = high <->
   exists risk pre post,
     In risk highRiskActions /\
     toLowerCase (name action ++ JSON_stringify (JObj (args action)))
     = pre ++ risk ++ post) /\
  (getRiskLevel action <> high -> getRiskLevel action = medium) /\
  incl ["delete"; "format"; "shutdown"; "transfer"; "payment"]
       highRiskActions /\
  (forall shot w,
     executorCalls (after (processAction action shot) w)
     = if decisionIs action require_confirmation then executorCalls w
       else (executorCalls w ++ [action])%list).
Proof.
  assert (Hhigh : getRiskLevel action = high <->
                  exists risk, In risk highRiskActions /\
                               includes (actionStr action) risk = true).
  { unfold getRiskLevel.
    destruct (existsb _ highRiskActions) eqn:He.
    - apply existsb_exists in He. split; [intros _; exact He | reflexivity].
    - split; [discriminate|]. intros Hex.
      assert (Ht : existsb (fun risk => includes (actionStr action) risk)
                     highRiskActions = true)
        by (apply existsb_exists; exact Hex).
      rewrite He in Ht. discriminate Ht. }
  split; [|split; [|split; [|split]]].
  - rewrite Hhigh. unfold actionStr. split.
    + intros (risk & Hin & Hinc). apply includes_spec in Hinc.
      destruct Hinc as (pre & post & Heq). now exists risk, pre, post.
    + intros (risk & pre & post & Hin & Heq). exists risk.
      split; [exact Hin|]. apply includes_spec. now exists pre, post.
  - rewrite Hhigh. split.
    + intros (risk & Hin & Hinc).
      rewrite (separator_immaterial action risk Hin) in Hinc.
      apply includes_spec in Hinc.
      destruct Hinc as (pre & post & Heq). now exists risk, pre, post.
    + intros (risk & pre & post & Hin & Heq). exists risk.
      split; [exact Hin|]. rewrite (separator_immaterial action risk Hin).
      apply includes_spec. now exists pre, post.
  - unfold getRiskLevel. destruct (existsb _ highRiskActions); congruence.
  - intros k Hk. unfold highRiskActions. simpl in Hk |- *. intuition.
  - intros shot w. apply processAction_executes_by_decision.
Qed.

Example high_risk_without_confirmation_is_executed :
  let a := {| name := "click_at";
              args := [("x", JNum 1); ("y", JNum 2);
                       ("label", JStr "Delete account")];
              safetyDecision := None |} in
  getRiskLevel a = high /\
  executorCalls (after (processAction a None) (demoWorld None)) = [a].
Proof. vm_compute. split; reflexivity. Qed.

(** ** C8: denormalization *)

(** The pixel pair computed for integer inputs, read back as
    integers. *)
Definition denormalized (x y w h : Z) : option Z * option Z :=
  let p := denormalizeCoordinates (Number_ofZ x) (Number_ofZ y)
             (Number_ofZ w) (Number_ofZ h) in
  (Number_toZ (px p), Number_toZ (py p)).

Definition axisPixel (x w : Z) : option Z :=
  Number_toZ
    (Math_round
       (PrimFloat.mul (PrimFloat.div (Number_ofZ x) (Number_ofZ 1000))
          (Number_ofZ w))).

Lemma denormalized_axes x y w h :
  denormalized x y w h = (axisPixel x w, axisPixel y h).
Proof. reflexivity. Qed.

(** C8, as stated, fails.  On the 1440 x 900 surface the pair
    (500, 565) gives (720, 508), while [round (565 / 1000 * 900)] is
    509: the product is computed as 508.49999999999994.  No reading
    of [round] on the exact quotient repairs the claim, since
    [145 / 1000 * 100] and [500 / 1000 * 29] are the same number, 14.5,
    and give 14 and 15. *)
Lemma denormalization_misses_ties :
  denormalized 500 565 1440 900 = (Some 720, Some 508) /\
  exactPixel 565 900 = 509 /\
  denormalized 145 500 100 29 = (Some 14, Some 15) /\
  (inject_Z 145 / inject_Z 1000 * inject_Z 100
   == inject_Z 500 / inject_Z 1000 * inject_Z 29)%Q.
Proof. vm_compute. repeat split. Qed.

(** Checking one axis for every coordinate below [n]. *)
Definition checkAxis (w : Z) (expected : Z -> Z) (n : nat) : bool :=
  forallb
    (fun i =>
       match axisPixel (Z.of_nat i) w with
       | Some r => r =? expected (Z.of_nat i)
       | None => false
       end)
    (seq 0 n).

Lemma checkAxis_sound (w : Z) (expected : Z -> Z) (n : nat) :
  checkAxis w expected n = true ->
  forall x, 0 <= x < Z.of_nat n -> axisPixel x w = Some (expected x).
Proof.
  intros Hc x Hx. unfold checkAxis in Hc.
  rewrite forallb_forall in Hc.
  specialize (Hc (Z.to_nat x)).
  rewrite Z2Nat.id in Hc by lia.
  assert (Hin : In (Z.to_nat x) (seq 0 n)) by (apply in_seq; lia).
  specialize (Hc Hin).
  destruct (axisPixel x w) as [r|]; [|discriminate].
  apply Z.eqb_eq in Hc. now subst.
Qed.

(** The expected height pixel on the 900-line surface. *)
Definition heightPixel900 (y : Z) : Z :=
  if y =? 565 then 508 else exactPixel y 900.

(** C8, amended.  Denormalization rounds the double-precision product
    [(x / 1000) * W].  On the default 1440 x 900 surface, for every
    integer pair in [0, 999]^2, the x pixel is [round (x / 1000 * 1440)]
    and the y pixel is [round (y / 1000 * 900)] computed exactly with
    ties upwards, except for y = 565, which gives 508; (500, 500)
    gives (720, 450). *)
Theorem denormalization_on_default_surface (x y : Z) :
  0 <= x <= 999 ->
  0 <= y <= 999 ->
  denormalized x y 1440 900
    = (Some (exactPixel x 1440), Some (heightPixel900 y)) /\
  denormalized 500 500 1440 900 = (Some 720, Some 450).
Proof.
  intros Hx Hy. split; [|vm_compute; reflexivity].
  rewrite denormalized_axes.
  assert (Hw : checkAxis 1440 (fun x => exactPixel x 1440) 1000 = true)
    by (vm_compute; reflexivity).
  assert (Hh : checkAxis 900 heightPixel900 1000 = true)
    by (vm_compute; reflexivity).
  rewrite (checkAxis_sound 1440 _ 1000%nat Hw x) by lia.
  rewrite (checkAxis_sound 900 _ 1000%nat Hh y) by lia.
  reflexivity.
Qed.

Lemma denormalization_on_default_surface_witness :
  denormalized 500 500 1440 900
  = (Some (exactPixel 500 1440), Some (heightPixel900 500)).
Proof.
  exact (proj1 (denormalization_on_default_surface 500 500
                  ltac:(lia) ltac:(lia))).
Defined.


(** * Further properties of the code *)

(** ** Submitting a task: the edges of [handleTaskSubmit] *)

Lemma render_currentScreenshot w :
  currentScreenshot (render w) = currentScreenshot w.
Proof.
  unfold render.
  destruct (safetyModal (uiSession w)), (timeLeft w); reflexivity.
Qed.

Definition noSessionEntry (t : Z) : AIAction :=
  {| id := "error-" ++ string_of_Z t; type := AIActionType.error;
     content := "No active session. Please start a session first.";
     entry_args := None; timestamp := t |}.

(** X1. Without a session a submission is refused: whatever the model
    would answer, one error entry is appended and nothing else
    changes -- no task is queued, no request is opened, the executor
    is not invoked and no screenshot is cached. *)
Theorem submission_without_session_is_refused
    (w : World) (d : string) (reply : GeminiReply) :
  currentSession (uiSession w) = None ->
  let w' := step w (TaskSubmitted d reply) in
  actionStream (uiSession w')
    = (actionStream (uiSession w) ++ [noSessionEntry (now w)])%list /\
  taskQueue (uiSession w') = taskQueue (uiSession w) /\
  safetyModal (uiSession w') = safetyModal (uiSession w) /\
  executorCalls w' = executorCalls w /\
  vncCalls w' = vncCalls w /\
  currentScreenshot w' = currentScreenshot w.
Proof.
  intros Hs w'. subst w'. unfold step, handler, after, handleTaskSubmit.
  run_handlers. rewrite Hs. run_handlers.
  rewrite render_uiSession, render_executorCalls, render_vncCalls,
    render_currentScreenshot.
  simpl_world. repeat split.
Qed.

Lemma submission_without_session_is_refused_witness :
  let w := with_uiSession
             (fun u => {| currentSession := None;
                          isVNCConnected := isVNCConnected u;
                          vncConnectionStatus := vncConnectionStatus u;
                          agentThinking := agentThinking u;
                          safetyModal := safetyModal u;
                          taskQueue := taskQueue u;
                          actionStream := actionStream u |})
             (demoWorld (Some healthyRFB)) in
  let w' := step w (TaskSubmitted "click"
                      (Response (Some [allowedClick]))) in
  taskQueue (uiSession w') = [] /\ executorCalls w' = [].
Proof.
  pose proof (submission_without_session_is_refused
                (with_uiSession
                   (fun u => {| currentSession := None;
                                isVNCConnected := isVNCConnected u;
                                vncConnectionStatus := vncConnectionStatus u;
                                agentThinking := agentThinking u;
                                safetyModal := safetyModal u;
                                taskQueue := taskQueue u;
                                actionStream := actionStream u |})
                   (demoWorld (Some healthyRFB)))
                "click" (Response (Some [allowedClick]))) as H.
  destruct H as (_ & H2 & _ & H4 & _).
  - reflexivity.
  - split; [exact H2 | exact H4].
Defined.

Definition missingKey : JSError := Error "Gemini API key is required".

(** Without an API key the request is refused before the model is
    asked. *)
Lemma handleTaskSubmit_nokey w s d (reply : GeminiReply) :
  currentSession (uiSession w) = Some s ->
  apiKey (geminiConfig w) = "" ->
  handleTaskSubmit d reply w
  = (Returned tt,
     after (markTask (task_id (submittedTask w s d))
              (failedWith (String_of_error missingKey)))
       (after (logEntry "error" AIActionType.error
                 ("Task failed: " ++ message missingKey) None)
              (prepared w s d))).
Proof.
  intros Hs Hkey.
  assert (Hk : (apiKey (geminiConfig w) === "") = true)
    by (rewrite Hkey; reflexivity).
  unfold handleTaskSubmit, prepared, captured, sendRequest, submittedTask.
  run_handlers. rewrite Hs. run_handlers.
  destruct (truthy (currentScreenshot w)) eqn:Hc; run_handlers;
    [rewrite Hc | destruct (truthy (canvasRef w)) eqn:Hv];
    run_handlers; rewrite Hk; reflexivity.
Qed.

(** X2. With a session but an empty API key every submission fails,
    whatever the model would answer: the task is queued and marked
    failed with the error text of the missing key, the failure is
    logged, and the executor is not invoked. *)
Theorem submission_without_api_key_fails
    (w : World) (s : AgentSession) (d : string) (reply : GeminiReply) :
  currentSession (uiSession w) = Some s ->
  apiKey (geminiConfig w) = "" ->
  let w' := step w (TaskSubmitted d reply) in
  option_map status (lastTask w') = Some TaskStatus.failed /\
  option_map task_error (lastTask w')
    = Some (Some "Error: Gemini API key is required") /\
  option_map description (lastTask w') = Some d /\
  actionStream (uiSession w')
    = (actionStream (uiSession (prepared w s d))
         ++ [taskFailedEntry missingKey (now w)])%list /\
  executorCalls w' = executorCalls w /\
  vncCalls w' = vncCalls w /\
  safetyModal (uiSession w') = safetyModal (uiSession w).
Proof.
  intros Hs Hkey w'. subst w'. unfold step, handler, after.
  rewrite (handleTaskSubmit_nokey w s d reply Hs Hkey). cbn [snd].
  rewrite lastTask_render, render_uiSession, render_executorCalls,
    render_vncCalls.
  rewrite markTask_actionStream, markTask_executorCalls, markTask_safetyModal.
  rewrite (keeps_logEntry executorCalls), prepared_executorCalls.
  rewrite (keeps_logEntry (fun w => safetyModal (uiSession w))),
    prepared_safetyModal.
  erewrite lastTask_failed.
  - repeat split.
    + unfold taskFailedEntry. rewrite <- (prepared_now w s d). reflexivity.
    + unfold markTask. run_handlers. apply prepared_vncCalls.
  - rewrite (keeps_logEntry (fun w => taskQueue (uiSession w))).
    apply prepared_taskQueue.
Qed.

Lemma submission_without_api_key_fails_witness :
  let w := {| uiSession := uiSession (demoWorld None);
              currentScreenshot := None;
              geminiConfig := {| apiKey := ""; modelId := "gemini" |};
              timeLeft := None; rfbRef := None; canvasRef := None;
              connectionStatus := ConnectionStatus.disconnected;
              now := 0; captureTimers := 0; executorCalls := [];
              vncCalls := []; rfbSent := [] |} in
  let w' := step w (TaskSubmitted "click"
                      (Response (Some [allowedClick]))) in
  option_map status (lastTask w') = Some TaskStatus.failed /\
  executorCalls w' = [].
Proof.
  pose proof (submission_without_api_key_fails
                {| uiSession := uiSession (demoWorld None);
                   currentScreenshot := None;
                   geminiConfig := {| apiKey := ""; modelId := "gemini" |};
                   timeLeft := None; rfbRef := None; canvasRef := None;
                   connectionStatus := ConnectionStatus.disconnected;
                   now := 0; captureTimers := 0; executorCalls := [];
                   vncCalls := []; rfbSent := [] |}
                demoSession "click" (Response (Some [allowedClick]))) as H.
  destruct H as (H1 & _ & _ & _ & H5 & _).
  - reflexivity.
  - reflexivity.
  - split; [exact H1 | exact H5].
Defined.

(** ** The task queue across a submission *)

(** The identifier a submission in world [w] gives its task. *)
Definition newTaskId (w : World) : string := "task-" ++ string_of_Z (now w).

Lemma render_taskQueue w :
  taskQueue (uiSession (render w)) = taskQueue (uiSession w).
Proof. now rewrite render_uiSession. Qed.

Lemma markTask_taskQueue tid g w :
  taskQueue (uiSession (after (markTask tid g) w))
  = map (fun t => if task_id t === tid then g t else t)
        (taskQueue (uiSession w)).
Proof. reflexivity. Qed.

(** With a session, a submission maps one marking over the queue
    extended by the new task. *)
Lemma submission_queue w s d reply :
  currentSession (uiSession w) = Some s ->
  exists g : AgentTask -> AgentTask,
    taskQueue (uiSession (step w (TaskSubmitted d reply)))
    = map (fun t => if task_id t === newTaskId w then g t else t)
          (taskQueue (uiSession w) ++ [submittedTask w s d]) /\
    ((exists t1, g = completedAt_ t1) \/ (exists err, g = failedWith err)).
Proof.
  intros Hs. unfold step, handler, after.
  destruct (string_dec (apiKey (geminiConfig w)) "") as [Hkey|Hkey].
  - rewrite (handleTaskSubmit_nokey w s d reply Hs Hkey). cbn [snd].
    rewrite render_taskQueue, markTask_taskQueue.
    rewrite (keeps_logEntry (fun w => taskQueue (uiSession w))).
    rewrite prepared_taskQueue. eexists. split; [reflexivity|].
    right. eexists. reflexivity.
  - destruct reply as [e|functionCalls].
    + rewrite (handleTaskSubmit_failure w s d e Hs Hkey). cbn [snd].
      rewrite render_taskQueue, markTask_taskQueue.
      rewrite (keeps_logEntry (fun w => taskQueue (uiSession w))).
      rewrite prepared_taskQueue. eexists. split; [reflexivity|].
      right. eexists. reflexivity.
    + rewrite (handleTaskSubmit_response w s d functionCalls Hs Hkey).
      cbn [snd].
      rewrite render_taskQueue, markTask_taskQueue.
      rewrite batch_taskQueue, prepared_taskQueue.
      eexists. split; [reflexivity|]. left. eexists. reflexivity.
Qed.

Lemma map_unmarked (tid : string) (g : AgentTask -> AgentTask)
    (q : list AgentTask) :
  Forall (fun t => task_id t <> tid) q ->
  map (fun t => if task_id t === tid then g t else t) q = q.
Proof.
  induction 1 as [|t q Ht _ IH]; simpl; [reflexivity|].
  rewrite IH. apply String.eqb_neq in Ht. now rewrite Ht.
Qed.

(** X3. When no queued task carries the identifier of the new task, a
    submission in a session leaves every queued task as it is and
    appends exactly one task: the one submitted, with its description
    and the session's identifier, already in a final status
    (completed or failed), whatever the model answers. *)
Theorem submission_appends_one_finished_task
    (w : World) (s : AgentSession) (d : string) (reply : GeminiReply) :
  currentSession (uiSession w) = Some s ->
  Forall (fun t => task_id t <> newTaskId w) (taskQueue (uiSession w)) ->
  exists t : AgentTask,
    taskQueue (uiSession (step w (TaskSubmitted d reply)))
      = (taskQueue (uiSession w) ++ [t])%list /\
    task_id t = newTaskId w /\
    description t = d /\
    sessionId t = session_id s /\
    createdAt t = now w /\
    (status t = TaskStatus.completed \/ status t = TaskStatus.failed).
Proof.
  intros Hs Hfresh.
  destruct (submission_queue w s d reply Hs) as (g & Hq & Hg).
  rewrite map_app, (map_unmarked _ g _ Hfresh) in Hq.
  cbn [map] in Hq.
  change (task_id (submittedTask w s d)) with (newTaskId w) in Hq.
  rewrite String.eqb_refl in Hq.
  exists (g (submittedTask w s d)). split; [exact Hq|].
  destruct Hg as [[t1 ->] | [err ->]]; repeat split;
    [left | right]; reflexivity.
Qed.

Lemma submission_appends_one_finished_task_witness :
  exists t : AgentTask,
    taskQueue (uiSession (step (demoWorld None)
                            (TaskSubmitted "click"
                               (Response (Some [allowedClick])))))
      = [t] /\
    description t = "click".
Proof.
  destruct (submission_appends_one_finished_task (demoWorld None)
              demoSession "click" (Response (Some [allowedClick])))
    as (t & Hq & _ & Hd & _).
  - reflexivity.
  - constructor.
  - exists t. split; [exact Hq | exact Hd].
Defined.

(** X4. Task identifiers come from the clock alone.  A queued task
    that carries the identifier of the new task (it was submitted at
    the same clock reading) is marked together with it: when the new
    task completes, the older one is rewritten as completed as well,
    whatever its status was, and keeps its error text. *)
Theorem same_clock_reading_marks_older_task
    (w : World) (s : AgentSession) (d : string)
    (functionCalls : option (list FunctionCall)) (older : AgentTask) :
  currentSession (uiSession w) = Some s ->
  apiKey (geminiConfig w) <> "" ->
  In older (taskQueue (uiSession w)) ->
  task_id older = newTaskId w ->
  exists t1 marked,
    In marked (taskQueue (uiSession
                 (step w (TaskSubmitted d (Response functionCalls))))) /\
    marked = completedAt_ t1 older /\
    status marked = TaskStatus.completed /\
    task_error marked = task_error older /\
    description marked = description older.
Proof.
  intros Hs Hkey Hin Hid. unfold step, handler, after.
  rewrite (handleTaskSubmit_response w s d functionCalls Hs Hkey). cbn [snd].
  rewrite render_taskQueue, markTask_taskQueue.
  rewrite batch_taskQueue, prepared_taskQueue.
  set (t1 := now (after (batch (callsOf functionCalls)
                           (orUndefined (captured w)))
                        (prepared w s d))).
  exists t1, (completedAt_ t1 older). split; [|repeat split].
  apply in_map_iff. exists older. split.
  - change (task_id (submittedTask w s d)) with (newTaskId w).
    rewrite Hid, String.eqb_refl. reflexivity.
  - apply in_or_app. left. exact Hin.
Qed.

Lemma same_clock_reading_marks_older_task_witness :
  let w1 := step (demoWorld None)
              (TaskSubmitted "first"
                 (Failure (Error "quota exceeded"))) in
  let w2 := step w1 (TaskSubmitted "second" (Response (Some []))) in
  map status (taskQueue (uiSession w1)) = [TaskStatus.failed] /\
  exists t1 marked,
    In marked (taskQueue (uiSession w2)) /\
    description marked = "first" /\
    status marked = TaskStatus.completed /\
    marked = completedAt_ t1
               {| task_id := "task-0"; sessionId := "session-1";
                  description := "first"; status := TaskStatus.failed;
                  priority := Priority.medium; createdAt := 0;
                  completedAt := None; actions := [];
                  task_error := Some "Error: quota exceeded" |}.
Proof.
  split; [reflexivity|].
  destruct (same_clock_reading_marks_older_task
              (step (demoWorld None)
                 (TaskSubmitted "first" (Failure (Error "quota exceeded"))))
              demoSession "second" (Some [])
              {| task_id := "task-0"; sessionId := "session-1";
                 description := "first"; status := TaskStatus.failed;
                 priority := Priority.medium; createdAt := 0;
                 completedAt := None; actions := [];
                 task_error := Some "Error: quota exceeded" |})
    as (t1 & marked & Hin & Heq & Hst & _ & Hd).
  - reflexivity.
  - discriminate.
  - left. reflexivity.
  - reflexivity.
  - exists t1, marked. repeat split; assumption.
Defined.

(** ** A whole response: order of execution, request left open *)

(** The last descriptor of a response that asks for confirmation. *)
Definition lastConfirmation (l : list ComputerAction) : option ComputerAction :=
  last (map Some (filter (fun a => decisionIs a require_confirmation) l)) None.

Lemma processAction_safetyModal (action : ComputerAction) shot w :
  safetyModal (uiSession (after (processAction action shot) w))
  = if decisionIs action require_confirmation
    then Some (newModal action shot) else safetyModal (uiSession w).
Proof.
  destruct (decisionIs action require_confirmation) eqn:Hd.
  - unfold after. rewrite (processAction_gate action shot w Hd). reflexivity.
  - rewrite (processAction_direct action shot w Hd).
    rewrite (keeps_executeAction (fun w => safetyModal (uiSession w)))
      by reflexivity.
    apply (keeps_announce (fun w => safetyModal (uiSession w))).
Qed.

Lemma last_some_cons {A} (a : A) (l : list A) :
  last (map Some (a :: l)) None
  = match last (map Some l) None with Some b => Some b | None => Some a end.
Proof.
  revert a. induction l as [|b l IH]; intros a; [reflexivity|].
  change (last (map Some (a :: b :: l)) None)
    with (last (map Some (b :: l)) None).
  rewrite (IH b). destruct (last (map Some l) None); reflexivity.
Qed.

Lemma batch_safetyModal l shot : forall w,
  safetyModal (uiSession (after (batch l shot) w))
  = match lastConfirmation l with
    | Some a => Some (newModal a shot)
    | None => safetyModal (uiSession w)
    end.
Proof.
  induction l as [|a l IH]; intros w.
  - reflexivity.
  - rewrite batch_cons, IH, processAction_safetyModal.
    unfold lastConfirmation. cbn [filter].
    destruct (decisionIs a require_confirmation).
    + rewrite last_some_cons.
      destruct (last (map Some (filter _ l)) None); reflexivity.
    + reflexivity.
Qed.

(** X5. A response is processed strictly in order and in one go: the
    executor is invoked once for each descriptor that does not ask for
    confirmation, in the order of the response, and for no other; the
    request left open afterwards is the one of the last descriptor
    that asks for confirmation (an earlier such descriptor is
    dropped), and without any the gate is as it was. *)
Theorem response_is_processed_in_order
    (w : World) (s : AgentSession) (d : string)
    (functionCalls : option (list FunctionCall)) :
  currentSession (uiSession w) = Some s ->
  apiKey (geminiConfig w) <> "" ->
  let w' := step w (TaskSubmitted d (Response functionCalls)) in
  executorCalls w'
    = (executorCalls w ++ filter direct (callsOf functionCalls))%list /\
  safetyModal (uiSession w')
    = match lastConfirmation (callsOf functionCalls) with
      | Some a => Some (newModal a (orUndefined (captured w)))
      | None => safetyModal (uiSession w)
      end.
Proof.
  intros Hs Hkey w'. subst w'. unfold step, handler, after.
  rewrite (handleTaskSubmit_response w s d functionCalls Hs Hkey). cbn [snd].
  rewrite render_executorCalls, render_uiSession.
  rewrite markTask_executorCalls, markTask_safetyModal.
  rewrite batch_executorCalls, batch_safetyModal.
  now rewrite prepared_executorCalls, prepared_safetyModal.
Qed.

Lemma response_is_processed_in_order_witness :
  let w' := step (demoWorld None)
              (TaskSubmitted "three"
                 (Response (Some [allowedClick; confirmClick;
                                  blockedClick]))) in
  executorCalls w'
    = [parseFunctionCall allowedClick; parseFunctionCall blockedClick] /\
  option_map modal_action (safetyModal (uiSession w'))
    = Some (parseFunctionCall confirmClick).
Proof.
  pose proof (response_is_processed_in_order (demoWorld None) demoSession
                "three"
                (Some [allowedClick; confirmClick; blockedClick])) as H.
  destruct H as (H1 & H2).
  - reflexivity.
  - discriminate.
  - split; [exact H1|]. rewrite H2. reflexivity.
Defined.

(** ** What the executor sends for each action *)

Definition reasoningEntry (action : ComputerAction) (t : Z) : AIAction :=
  {| id := "reasoning-" ++ string_of_Z t; type := AIActionType.reasoning;
     content := getActionReasoning action;
     entry_args := None; timestamp := t |}.

Lemma dispatch_pointer (action : ComputerAction) :
  (name action === "click_at") || (name action === "hover_at") = true ->
  dispatch action
  = sendMouseEvent (getProp "x" (args action)) (getProp "y" (args action))
      (if name action === "click_at" then 1 else 0).
Proof. intros H. unfold dispatch. now rewrite H. Qed.

Lemma dispatch_type_text (action : ComputerAction) :
  name action = "type_text_at" ->
  dispatch action
  = (sendMouseEvent (getProp "x" (args action)) (getProp "y" (args action)) 1 ;;
     sleep 100 ;;
     sendKeyboardEvent 0 false).
Proof. intros H. unfold dispatch. now rewrite H. Qed.

Lemma dispatch_keys (action : ComputerAction) :
  name action = "key_combination" ->
  dispatch action
  = match getProp "keys" (args action) with
    | Some (JStr keys) =>
        if toLowerCase keys === "enter" then
          sendKeyboardEvent 13 true ;;
          sendKeyboardEvent 13 false
        else ret tt
    | None =>
        throw (TypeError
          "Cannot read properties of undefined (reading 'toLowerCase')")
    | Some JNull =>
        throw (TypeError
          "Cannot read properties of null (reading 'toLowerCase')")
    | Some _ => throw (TypeError "keys.toLowerCase is not a function")
    end.
Proof. intros H. unfold dispatch. now rewrite H. Qed.

(** The action names for which [executeAction] has a case that does
    something. *)
Definition implemented (n : string) : bool :=
  (n === "click_at") || (n === "hover_at") || (n === "type_text_at")
  || (n === "key_combination").

Lemma dispatch_other (action : ComputerAction) :
  implemented (name action) = false ->
  dispatch action = ret tt.
Proof.
  unfold implemented. intros H.
  apply orb_false_elim in H as [H H4].
  apply orb_false_elim in H as [H H3].
  apply orb_false_elim in H as [H1 H2].
  unfold dispatch. now rewrite H1, H2, H3, H4.
Qed.

Ltac run_with H := repeat (progress (run_handlers; rewrite ?H)).

Ltac case_transport H :=
  match goal with
  | |- context [transportError ?rfb ?c] =>
      destruct (transportError rfb c); run_with H
  end.

Ltac unfold_executor :=
  unfold executeAction, tryExecute, perform, sendMouseEvent,
    sendKeyboardEvent, sendToClient.

(** X6. For every action name other than [click_at], [hover_at],
    [type_text_at] and [key_combination] -- so for [navigate],
    [scroll_at], [scroll_document], [drag_and_drop], [go_back] and the
    like -- the executor sends nothing to the remote session: it logs
    its reasoning, reports no error and schedules the capture, as if
    the action had been carried out. *)
Theorem unimplemented_action_sends_nothing
    (action : ComputerAction) (w : World) :
  implemented (name action) = false ->
  let w' := after (executeAction action) w in
  vncCalls w' = vncCalls w /\
  rfbSent w' = rfbSent w /\
  actionStream (uiSession w')
    = (actionStream (uiSession w) ++ [reasoningEntry action (now w)])%list /\
  captureTimers w' = S (captureTimers w) /\
  executorCalls w' = (executorCalls w ++ [action])%list.
Proof.
  intros H w'. subst w'. unfold_executor.
  rewrite (dispatch_other action H). run_handlers. repeat split.
Qed.

Lemma unimplemented_action_sends_nothing_witness :
  let a := {| name := "navigate";
              args := [("url", JStr "https://example.org")];
              safetyDecision := None |} in
  let w' := after (executeAction a) (demoWorld (Some healthyRFB)) in
  vncCalls w' = [] /\ captureTimers w' = 1%nat.
Proof.
  pose proof (unimplemented_action_sends_nothing
                {| name := "navigate";
                   args := [("url", JStr "https://example.org")];
                   safetyDecision := None |}
                (demoWorld (Some healthyRFB))) as H.
  destruct H as (H1 & _ & _ & H4 & _).
  - reflexivity.
  - split; [exact H1 | exact H4].
Defined.

(** X7. A [click_at] or [hover_at] makes exactly one pointer call,
    with button mask 1 for a click and 0 for a hover, and with the
    [x] and [y] of the arguments as they are: the normalized
    coordinates are not denormalized, and a coordinate that is missing
    or not a number is passed on all the same. *)
Theorem pointer_action_sends_raw_coordinates
    (action : ComputerAction) (w : World) :
  (name action === "click_at") || (name action === "hover_at") = true ->
  vncCalls (after (executeAction action) w)
  = (vncCalls w
       ++ [MouseEvent (getProp "x" (args action)) (getProp "y" (args action))
             (if name action === "click_at" then 1 else 0)])%list.
Proof.
  intros H. unfold_executor. rewrite (dispatch_pointer action H).
  unfold_executor. run_handlers.
  destruct (rfbRef w) as [rfb|]; run_handlers; [|reflexivity].
  destruct (transportError rfb _); run_handlers; reflexivity.
Qed.

Lemma pointer_action_sends_raw_coordinates_witness :
  let a := {| name := "hover_at"; args := [("x", JStr "left")];
              safetyDecision := None |} in
  vncCalls (after (executeAction a) (demoWorld (Some healthyRFB)))
  = [MouseEvent (Some (JStr "left")) None 0].
Proof.
  exact (pointer_action_sends_raw_coordinates
           {| name := "hover_at"; args := [("x", JStr "left")];
              safetyDecision := None |}
           (demoWorld (Some healthyRFB)) eq_refl).
Defined.

(** X8. A [type_text_at] never types its text.  Whatever the [text],
    [press_enter] and [clear_before_typing] of the arguments, the
    executor makes one pointer click at [x], [y] and then at most one
    keyboard call, the release of key 0; no key press is ever made. *)
Theorem type_text_sends_no_text (action : ComputerAction) (w : World) :
  name action = "type_text_at" ->
  let click := MouseEvent (getProp "x" (args action))
                 (getProp "y" (args action)) 1 in
  let made := vncCalls (after (executeAction action) w) in
  made = (vncCalls w ++ [click])%list \/
  made = (vncCalls w ++ [click; KeyboardEvent 0 false])%list.
Proof.
  intros H click made. subst click made.
  unfold_executor. rewrite (dispatch_type_text action H).
  unfold_executor. run_handlers.
  destruct (rfbRef w) as [rfb|] eqn:Hr; run_with Hr.
  - case_transport Hr.
    + left. reflexivity.
    + case_transport Hr; right; now rewrite <- app_assoc.
  - right. now rewrite <- app_assoc.
Qed.

Lemma type_text_sends_no_text_witness :
  let a := {| name := "type_text_at";
              args := [("x", JNum 5); ("y", JNum 6);
                       ("text", JStr "hello"); ("press_enter", JBool true)];
              safetyDecision := None |} in
  let made := vncCalls (after (executeAction a) (demoWorld None)) in
  made = [MouseEvent (Some (JNum 5)) (Some (JNum 6)) 1] \/
  made = [MouseEvent (Some (JNum 5)) (Some (JNum 6)) 1;
          KeyboardEvent 0 false].
Proof.
  exact (type_text_sends_no_text
           {| name := "type_text_at";
              args := [("x", JNum 5); ("y", JNum 6);
                       ("text", JStr "hello"); ("press_enter", JBool true)];
              safetyDecision := None |}
           (demoWorld None) eq_refl).
Defined.

(** The error with which the client answers a command; none when
    there is no client. *)
Definition refused (w : World) (c : VNCCall) : option JSError :=
  match rfbRef w with
  | Some rfb => transportError rfb c
  | None => None
  end.

(** X9. Of the key combinations only Enter is acted upon.  For a
    [key_combination] whose [keys] is a string other than "enter"
    (compared without case), the executor sends nothing and reports no
    error.  For "enter" in any case it makes the press of key 13 and,
    unless the client refused the press, the release of key 13 after
    it; when the press is refused, the release is not made, the error
    is logged as the failure of the action and no capture is
    scheduled. *)
Theorem only_enter_is_sent
    (action : ComputerAction) (keys : string) (w : World) :
  name action = "key_combination" ->
  getProp "keys" (args action) = Some (JStr keys) ->
  let w' := after (executeAction action) w in
  let press := KeyboardEvent 13 true in
  let release := KeyboardEvent 13 false in
  (toLowerCase keys <> "enter" ->
     vncCalls w' = vncCalls w /\
     actionStream (uiSession w')
       = (actionStream (uiSession w)
            ++ [reasoningEntry action (now w)])%list /\
     captureTimers w' = S (captureTimers w)) /\
  (toLowerCase keys = "enter" ->
     (refused w press = None ->
        vncCalls w' = (vncCalls w ++ [press; release])%list) /\
     (refused w press = None -> refused w release = None ->
        actionStream (uiSession w')
          = (actionStream (uiSession w)
               ++ [reasoningEntry action (now w)])%list /\
        captureTimers w' = S (captureTimers w)) /\
     (forall e, refused w press = Some e ->
        vncCalls w' = (vncCalls w ++ [press])%list /\
        rfbSent w' = rfbSent w /\
        actionStream (uiSession w')
          = (actionStream (uiSession w)
               ++ [reasoningEntry action (now w);
                   failureEntry action e (now w)])%list /\
        captureTimers w' = captureTimers w)).
Proof.
  intros Hn Hk w' press release. subst w' press release. unfold_executor.
  rewrite (dispatch_keys action Hn), Hk. split.
  - intros Hne. apply String.eqb_neq in Hne. rewrite Hne.
    run_handlers. repeat split.
  - intros He. rewrite He. cbn [String.eqb Ascii.eqb Bool.eqb].
    unfold_executor. unfold refused. run_handlers.
    destruct (rfbRef w) as [rfb|] eqn:Hr; run_with Hr.
    + destruct (transportError rfb (KeyboardEvent 13 true)) as [e1|] eqn:Hp;
        run_with Hr.
      * split; [discriminate|]. split; [discriminate|].
        intros e Heq. injection Heq as <-.
        repeat split. now rewrite <- app_assoc.
      * destruct (transportError rfb (KeyboardEvent 13 false)) as [e2|] eqn:Hq;
          run_with Hr.
        -- split; [intros _; now rewrite <- app_assoc|].
           split; [discriminate | discriminate].
        -- split; [intros _; now rewrite <- app_assoc|].
           split; [intros _ _; split; reflexivity | discriminate].
    + split; [intros _; now rewrite <- app_assoc|].
      split; [intros _ _; split; reflexivity | discriminate].
Qed.

Lemma only_enter_is_sent_witness :
  let copy := {| name := "key_combination";
                 args := [("keys", JStr "Control+C")];
                 safetyDecision := None |} in
  let enter := {| name := "key_combination";
                  args := [("keys", JStr "Enter")];
                  safetyDecision := None |} in
  vncCalls (after (executeAction copy) (demoWorld (Some healthyRFB))) = [] /\
  vncCalls (after (executeAction enter) (demoWorld (Some healthyRFB)))
    = [KeyboardEvent 13 true; KeyboardEvent 13 false] /\
  vncCalls (after (executeAction enter) (demoWorld (Some brokenRFB)))
    = [KeyboardEvent 13 true].
Proof.
  split; [|split].
  - pose proof (only_enter_is_sent
                  {| name := "key_combination";
                     args := [("keys", JStr "Control+C")];
                     safetyDecision := None |}
                  "Control+C" (demoWorld (Some healthyRFB))
                  eq_refl eq_refl) as [H _].
    destruct H as (H1 & _).
    + discriminate.
    + exact H1.
  - pose proof (only_enter_is_sent
                  {| name := "key_combination";
                     args := [("keys", JStr "Enter")];
                     safetyDecision := None |}
                  "Enter" (demoWorld (Some healthyRFB))
                  eq_refl eq_refl) as [_ H].
    destruct H as (H1 & _).
    + reflexivity.
    + apply H1. reflexivity.
  - pose proof (only_enter_is_sent
                  {| name := "key_combination";
                     args := [("keys", JStr "Enter")];
                     safetyDecision := None |}
                  "Enter" (demoWorld (Some brokenRFB))
                  eq_refl eq_refl) as [_ H].
    destruct H as (_ & _ & H3).
    + reflexivity.
    + destruct (H3 (Error "WebSocket is closed") eq_refl) as (Hv & _).
      exact Hv.
Defined.

(** X10. A [key_combination] without [keys] fails inside the
    executor: nothing is sent, the type error is logged as the failure
    of the action, and -- the capture being scheduled at the end of the
    [try] block -- no capture is scheduled. *)
Theorem key_combination_without_keys_fails
    (action : ComputerAction) (w : World) :
  name action = "key_combination" ->
  getProp "keys" (args action) = None ->
  let w' := after (executeAction action) w in
  vncCalls w' = vncCalls w /\
  rfbSent w' = rfbSent w /\
  captureTimers w' = captureTimers w /\
  actionStream (uiSession w')
    = (actionStream (uiSession w)
         ++ [reasoningEntry action (now w);
             failureEntry action
               (TypeError
                  "Cannot read properties of undefined (reading 'toLowerCase')")
               (now w)])%list.
Proof.
  intros Hn Hk w'. subst w'. unfold_executor.
  rewrite (dispatch_keys action Hn), Hk. run_handlers.
  repeat split. now rewrite <- app_assoc.
Qed.

Lemma key_combination_without_keys_fails_witness :
  let a := {| name := "key_combination"; args := [];
              safetyDecision := None |} in
  let w' := after (executeAction a) (demoWorld (Some healthyRFB)) in
  vncCalls w' = [] /\ captureTimers w' = 0%nat.
Proof.
  pose proof (key_combination_without_keys_fails
                {| name := "key_combination"; args := [];
                   safetyDecision := None |}
                (demoWorld (Some healthyRFB)) eq_refl eq_refl) as H.
  destruct H as (H1 & _ & H3 & _).
  split; [exact H1 | exact H3].
Defined.

(** X11. With no client behind the hook (never connected, or
    disconnected by a stop), the executor still goes through every
    pointer and text action as if it worked: the call on the hook is
    made, nothing is delivered, no error is logged and the capture is
    scheduled. *)
Theorem without_client_actions_are_dropped_silently
    (action : ComputerAction) (w : World) :
  rfbRef w = None ->
  name action <> "key_combination" ->
  let w' := after (executeAction action) w in
  rfbSent w' = rfbSent w /\
  filter isError (actionStream (uiSession w'))
    = filter isError (actionStream (uiSession w)) /\
  captureTimers w' = S (captureTimers w) /\
  rfbRef w' = None.
Proof.
  intros Hr Hn w'. subst w'.
  apply String.eqb_neq in Hn.
  destruct ((name action === "click_at") || (name action === "hover_at"))
    eqn:Hp.
  - unfold_executor. rewrite (dispatch_pointer action Hp).
    unfold_executor. run_handlers. rewrite Hr. run_handlers.
    rewrite filter_app. cbn. rewrite app_nil_r. repeat split. exact Hr.
  - destruct (name action === "type_text_at") eqn:Ht.
    + apply String.eqb_eq in Ht.
      unfold_executor. rewrite (dispatch_type_text action Ht).
      unfold_executor. run_handlers. rewrite Hr. run_handlers.
      rewrite Hr. run_handlers.
      rewrite filter_app. cbn. rewrite app_nil_r. repeat split. exact Hr.
    + assert (Hi : implemented (name action) = false)
        by (unfold implemented; now rewrite Hp, Ht, Hn).
      unfold_executor. rewrite (dispatch_other action Hi). run_handlers.
      rewrite filter_app. cbn. rewrite app_nil_r. repeat split. exact Hr.
Qed.

Lemma without_client_actions_are_dropped_silently_witness :
  let w' := after (executeAction (parseFunctionCall allowedClick))
              (demoWorld None) in
  rfbSent w' = [] /\ captureTimers w' = 1%nat.
Proof.
  pose proof (without_client_actions_are_dropped_silently
                (parseFunctionCall allowedClick) (demoWorld None)) as H.
  destruct H as (H1 & _ & H3 & _).
  - reflexivity.
  - discriminate.
  - split; [exact H1 | exact H3].
Defined.

(** ** The activity stream only grows *)

Lemma grows_handleTaskSubmit d reply : grows (handleTaskSubmit d reply).
Proof.
  unfold handleTaskSubmit.
  apply grows_bind; [apply grows_keeps; intro; reflexivity | intros session].
  destruct session as [s|]; [|apply grows_logEntry].
  apply grows_bind; [apply grows_keeps; intro; reflexivity | intros t0].
  apply grows_bind; [apply grows_keeps; intro; reflexivity | intros _].
  apply grows_bind; [apply grows_logEntry | intros _].
  apply grows_tryCatch.
  - apply grows_bind; [apply grows_keeps; intro; reflexivity | intros cached].
    apply grows_bind.
    { destruct (truthy cached); apply grows_keeps; intro; reflexivity. }
    intros shot.
    apply grows_bind.
    { destruct (truthy shot); apply grows_keeps; intro; reflexivity. }
    intros _.
    apply grows_bind.
    { unfold sendRequest.
      apply grows_bind; [apply grows_keeps; intro; reflexivity | intros c].
      destruct (apiKey c === ""); [apply grows_keeps; intro; reflexivity|].
      destruct reply; apply grows_keeps; intro; reflexivity. }
    intros actions.
    apply grows_bind.
    { apply grows_forEach. intro a. apply grows_processAction. }
    intros _.
    apply grows_bind; [apply grows_keeps; intro; reflexivity | intros t1].
    apply grows_keeps. intro. reflexivity.
  - intros e.
    apply grows_bind; [apply grows_logEntry | intros _].
    apply grows_keeps. intro. reflexivity.
Qed.

Lemma grows_handler ev : ev <> StopSessionClicked -> grows (handler ev).
Proof.
  intros Hne. destruct ev; cbn [handler]; try congruence.
  - apply grows_handleTaskSubmit.
  - intro w. unfold after. destruct (safetyModal (uiSession w)) as [m|].
    + apply (grows_bind _ _ (grows_executeAction (modal_action m))).
      intros _. apply grows_keeps. intro. reflexivity.
    + exists []. now rewrite app_nil_r.
  - intro w. unfold after. destruct (safetyModal (uiSession w)) as [m|].
    + apply (grows_bind _ _ (grows_logEntry _ _ _ _)).
      intros _. apply grows_keeps. intro. reflexivity.
    + exists []. now rewrite app_nil_r.
  - intro w. unfold after, countdown.
    destruct (intervalActive w).
    + unfold bind, sleep, modify. cbn [snd fst].
      set (w1 := with_now (now w + 1000) w).
      change (stream w) with (stream w1).
      destruct (safetyModal (uiSession w1)) as [m|];
        [|exists []; now rewrite app_nil_r].
      destruct (timeLeft w1) as [prev|]; [|exists []; now rewrite app_nil_r].
      destruct (prev <=? 1); [|exists []; now rewrite app_nil_r].
      eexists. reflexivity.
    + exists []. now rewrite app_nil_r.
  - unfold emergencyStop.
    apply grows_bind.
    { apply grows_keeps. intro w. unfold after, disconnect, modify, stream.
      cbn [snd]. destruct (rfbRef w); reflexivity. }
    intros _.
    apply grows_bind; [apply grows_keeps; intro; reflexivity | intros _].
    apply grows_logEntry.
  - intro w. unfold after. destruct (captureTimers w);
      [exists []; now rewrite app_nil_r|].
    unfold captureAfterAction.
    apply (grows_bind (A := option string)).
    { apply grows_keeps. intro. reflexivity. }
    intros shot. apply grows_bind.
    { destruct (truthy shot); apply grows_keeps; intro; reflexivity. }
    intros _. apply grows_keeps. intro. reflexivity.
Qed.

(** X12. The activity stream is append-only for everything but a
    session stop: through a submission, a click on Approve or Deny, a
    second of the countdown, an emergency stop or a capture, the
    entries already in the stream stay, in order, at its start.
    [stopSession] is the one handler that empties it. *)
Theorem stream_is_append_only (evs : list Event) (w : World) :
  Forall (fun ev => ev <> StopSessionClicked) evs ->
  (exists l, stream (run w evs) = (stream w ++ l)%list) /\
  stream (step (run w evs) StopSessionClicked) = [].
Proof.
  intros H. split.
  - revert w. induction H as [|ev evs Hev _ IH]; intros w.
    + exists []. now rewrite app_nil_r.
    + rewrite run_cons. destruct (IH (step w ev)) as [l2 H2].
      destruct (grows_handler ev Hev w) as [l1 H1].
      exists (l1 ++ l2)%list. rewrite H2. unfold step, stream at 1.
      rewrite render_uiSession. fold (stream (after (handler ev) w)).
      now rewrite H1, app_assoc.
  - unfold step, stream. rewrite render_uiSession.
    unfold handler, stopSession, after, disconnect. run_handlers.
    reflexivity.
Qed.

Lemma stream_is_append_only_witness :
  let w := step (demoWorld (Some healthyRFB))
             (TaskSubmitted "one" (Response (Some [confirmClick]))) in
  exists l,
    stream (run w [SecondElapsed; DenyClicked; EmergencyStopClicked])
    = (stream w ++ l)%list.
Proof.
  refine (proj1 (stream_is_append_only
                   [SecondElapsed; DenyClicked; EmergencyStopClicked]
                   (step (demoWorld (Some healthyRFB))
                      (TaskSubmitted "one" (Response (Some [confirmClick]))))
                   _)).
  repeat constructor; discriminate.
Defined.

(** ** Stopping the session with a request pending *)

Lemma executeAction_without_client (action : ComputerAction) (w : World) :
  rfbRef w = None ->
  rfbSent (after (executeAction action) w) = rfbSent w /\
  rfbRef (after (executeAction action) w) = None.
Proof.
  intros Hr. split.
  - destruct ((name action === "click_at") || (name action === "hover_at"))
      eqn:Hp.
    { unfold_executor. rewrite (dispatch_pointer action Hp).
      unfold_executor. run_with Hr. reflexivity. }
    destruct (name action === "type_text_at") eqn:Ht.
    { apply String.eqb_eq in Ht.
      unfold_executor. rewrite (dispatch_type_text action Ht).
      unfold_executor. run_with Hr. reflexivity. }
    destruct (name action === "key_combination") eqn:Hk.
    { apply String.eqb_eq in Hk.
      unfold_executor. rewrite (dispatch_keys action Hk).
      destruct (getProp "keys" (args action)) as [[| | |keys| |]|];
        run_with Hr; try reflexivity.
      destruct (toLowerCase keys === "enter"); unfold_executor;
        run_with Hr; reflexivity. }
    assert (Hi : implemented (name action) = false)
      by (unfold implemented; now rewrite Hp, Ht, Hk).
    unfold_executor. rewrite (dispatch_other action Hi). run_handlers.
    reflexivity.
  - rewrite (keeps_executeAction rfbRef action) by reflexivity. exact Hr.
Qed.

(** X13. [stopSession] does not close the approval dialog.  Stopping
    the session while a request is pending ends the session, empties
    the stream and drops the client, but the request stays open; a
    click on Approve afterwards still invokes the executor for the
    held descriptor, and nothing is delivered because the client is
    gone. *)
Theorem stop_session_keeps_request_open (w : World) (m : SafetyModalType) :
  safetyModal (uiSession w) = Some m ->
  let stopped := step w StopSessionClicked in
  let approved := step stopped ApproveClicked in
  currentSession (uiSession stopped) = None /\
  stream stopped = [] /\
  rfbRef stopped = None /\
  safetyModal (uiSession stopped) = Some m /\
  taskQueue (uiSession stopped) = taskQueue (uiSession w) /\
  executorCalls approved = (executorCalls w ++ [modal_action m])%list /\
  rfbSent approved = rfbSent w /\
  safetyModal (uiSession approved) = None.
Proof.
  intros Hm stopped approved.
  assert (H1 : currentSession (uiSession stopped) = None /\
               stream stopped = [] /\
               rfbRef stopped = None /\
               safetyModal (uiSession stopped) = Some m /\
               taskQueue (uiSession stopped) = taskQueue (uiSession w) /\
               executorCalls stopped = executorCalls w /\
               rfbSent stopped = rfbSent w).
  { subst stopped. unfold step, stream.
    rewrite render_uiSession, render_rfbRef, render_executorCalls,
      render_rfbSent.
    unfold handler, stopSession, after, disconnect. run_handlers.
    destruct (rfbRef w) eqn:E; simpl_world; repeat split;
      first [assumption | reflexivity]. }
  destruct H1 as (Hs & Hst & Hr & Hm' & Hq & He & Hsent).
  repeat (split; [assumption|]).
  destruct (approve_executes stopped m Hm') as [Ha Hn].
  subst approved. rewrite Ha, He. split; [reflexivity|].
  split; [|exact Hn].
  assert (Hstep : step stopped ApproveClicked
                  = render (after (onApprove m) stopped))
    by (unfold step, handler, after; now rewrite Hm').
  rewrite Hstep, render_rfbSent. unfold onApprove.
  destruct (executeAction_returns (modal_action m) stopped) as [[] Hret].
  rewrite (after_bind _ _ stopped tt Hret).
  change (rfbSent (after (executeAction (modal_action m)) stopped)
          = rfbSent w).
  rewrite (proj1 (executeAction_without_client _ _ Hr)). exact Hsent.
Qed.

Lemma stop_session_keeps_request_open_witness :
  let w := step (demoWorld (Some healthyRFB))
             (TaskSubmitted "one" (Response (Some [confirmClick]))) in
  let stopped := step w StopSessionClicked in
  option_map modal_action (safetyModal (uiSession stopped))
    = Some (parseFunctionCall confirmClick) /\
  executorCalls (step stopped ApproveClicked)
    = [parseFunctionCall confirmClick] /\
  rfbSent (step stopped ApproveClicked) = [].
Proof.
  pose proof (stop_session_keeps_request_open
                (step (demoWorld (Some healthyRFB))
                   (TaskSubmitted "one" (Response (Some [confirmClick]))))
                (newModal (parseFunctionCall confirmClick) None)) as H.
  destruct H as (_ & _ & _ & H4 & _ & H6 & H7 & _).
  - reflexivity.
  - split; [now rewrite H4|]. split; [exact H6 | exact H7].
Defined.

(** ** The countdown for any timeout *)

Lemma shown_world m w :
  timeLeft w = None ->
  shown m w
  = with_timeLeft (Some (timeout m))
      (with_uiSession (set_safetyModal (Some m)) w).
Proof. intros Ht. unfold shown, render. run_handlers. now rewrite Ht. Qed.

(** X14. A dialog mounted for a request with a whole positive timeout
    of [T] seconds counts down one by one: after [k < T] seconds the
    request is still pending with [T - k] left and nothing logged; the
    [T]-th second denies it, with one denial entry stamped
    [T * 1000] ms after the opening, and the descriptor is never
    executed. *)
Theorem countdown_expires_after_timeout
    (w : World) (m : SafetyModalType) (T : nat) :
  timeLeft w = None ->
  timeout m = Z.of_nat T ->
  (0 < T)%nat ->
  let at_ (k : nat) := run (shown m w) (repeat SecondElapsed k) in
  (forall k : nat, (k < T)%nat ->
     safetyModal (uiSession (at_ k)) = Some m /\
     timeLeft (at_ k) = Some (Z.of_nat T - Z.of_nat k) /\
     stream (at_ k) = stream w) /\
  safetyModal (uiSession (at_ T)) = None /\
  timeLeft (at_ T) = None /\
  stream (at_ T)
    = (stream w ++ [denialEntry m (now w + 1000 * Z.of_nat T)])%list /\
  executorCalls (at_ T) = executorCalls w.
Proof.
  intros Ht HT Hpos at_.
  pose proof (shown_world m w Ht) as Hs.
  assert (Hm : safetyModal (uiSession (shown m w)) = Some m)
    by (rewrite Hs; reflexivity).
  assert (Htl : timeLeft (shown m w) = Some (Z.of_nat T))
    by (rewrite Hs, HT; reflexivity).
  assert (Hat : forall k : nat, (k < T)%nat ->
            at_ k = with_timeLeft (Some (Z.of_nat T - Z.of_nat k))
                      (with_now (now w + 1000 * Z.of_nat k) (shown m w))).
  { intros k Hk. subst at_. cbn beta.
    rewrite (countdown_runs k _ m (Z.of_nat T) Hm Htl) by lia.
    rewrite Hs. reflexivity. }
  split.
  - intros k Hk. rewrite (Hat k Hk), Hs. repeat split.
  - destruct T as [|T']; [lia|].
    assert (HT' : at_ (S T')
                  = step (with_now (now w + 1000 * Z.of_nat (S T')) (at_ T'))
                      DenyClicked).
    { unfold at_ at 1. rewrite repeat_snoc, run_snoc. fold (at_ T').
      rewrite (Hat T') by lia.
      erewrite second_auto_denies; [| exact Hm | reflexivity | lia].
      simpl_world.
      replace (now w + 1000 * Z.of_nat T' + 1000)
        with (now w + 1000 * Z.of_nat (S T')) by lia.
      reflexivity. }
    rewrite HT'.
    assert (Hm' : safetyModal
                    (uiSession (with_now (now w + 1000 * Z.of_nat (S T'))
                                  (at_ T')))
                  = Some m)
      by (rewrite (Hat T') by lia; exact Hm).
    destruct (deny_skips _ m Hm') as (He & _ & Hn & Hst).
    unfold stream. rewrite He, Hn, Hst. rewrite (Hat T') by lia.
    rewrite Hs. simpl_world. repeat split.
Qed.

Lemma countdown_expires_after_timeout_witness :
  let m := {| modal_action := parseFunctionCall confirmClick;
              screenshot := None; modal_reasoning := "model note";
              timeout := 5 |} in
  let at_ (k : nat) :=
    run (shown m (demoWorld None)) (repeat SecondElapsed k) in
  timeLeft (at_ 4%nat) = Some 1 /\
  safetyModal (uiSession (at_ 5%nat)) = None.
Proof.
  pose proof (countdown_expires_after_timeout (demoWorld None)
                {| modal_action := parseFunctionCall confirmClick;
                   screenshot := None; modal_reasoning := "model note";
                   timeout := 5 |} 5) as H.
  destruct H as (Hk & Hn & _).
  - reflexivity.
  - reflexivity.
  - lia.
  - split; [exact (proj1 (proj2 (Hk 4%nat ltac:(lia)))) | exact Hn].
Defined.

(** ** Approving before the countdown ends *)

Lemma idle_step_stream w ev :
  safetyModal (uiSession w) = None ->
  quiet ev = true ->
  stream (step w ev) = stream w.
Proof.
  intros Hm Hq. destruct w as [u cs g tl r cv st n ct ec vc rs].
  cbn in Hm. unfold stream.
  destruct ev; try discriminate Hq; unfold_step; unfold captureAfterAction;
    run_handlers; rewrite ?Hm; run_handlers; rewrite ?Hm;
    try reflexivity.
  destruct ct as [|ct]; run_handlers; rewrite ?Hm; [reflexivity|].
  destruct (truthy cv); run_handlers; rewrite ?Hm; reflexivity.
Qed.

Lemma idle_run_stream evs : forall w,
  safetyModal (uiSession w) = None ->
  forallb quiet evs = true ->
  stream (run w evs) = stream w.
Proof.
  induction evs as [|ev evs IH]; intros w Hm Hq; [reflexivity|].
  cbn [forallb] in Hq. apply andb_prop in Hq as [Hev Hq].
  rewrite run_cons. rewrite IH; [apply idle_step_stream; assumption | | exact Hq].
  apply (idle_step w ev Hm Hev).
Qed.

Lemma render_idle_timeLeft w :
  safetyModal (uiSession (render w)) = None -> timeLeft (render w) = None.
Proof.
  unfold render.
  destruct (safetyModal (uiSession w)) as [m|] eqn:Hm;
    [destruct (timeLeft w) eqn:Ht|]; simpl_world; intros H.
  - congruence.
  - congruence.
  - reflexivity.
Qed.

(** X15. A request approved before its 30 seconds are over is
    executed exactly once and is never denied afterwards: the click on
    Approve, [k < 30] seconds after the opening, invokes the executor
    once for the held descriptor and closes the dialog, and whatever
    seconds and clicks follow add no executor call and no entry to the
    stream. *)
Theorem approval_before_expiry_executes_once
    (w : World) (action : ComputerAction) (shot : option string)
    (k : nat) (evs : list Event) :
  timeLeft w = None ->
  decisionIs action require_confirmation = true ->
  (k < 30)%nat ->
  forallb quiet evs = true ->
  let pending := run (opened action shot w) (repeat SecondElapsed k) in
  let approved := step pending ApproveClicked in
  executorCalls approved = (executorCalls w ++ [action])%list /\
  safetyModal (uiSession approved) = None /\
  timeLeft approved = None /\
  executorCalls (run approved evs) = (executorCalls w ++ [action])%list /\
  stream (run approved evs) = stream approved.
Proof.
  intros Ht Hd Hk Hq pending approved.
  pose proof (opened_world action shot w Ht Hd) as Ho.
  assert (Hp : pending
               = with_timeLeft (Some (30 - Z.of_nat k))
                   (with_now (now (opened action shot w) + 1000 * Z.of_nat k)
                      (opened action shot w))).
  { subst pending.
    apply (countdown_runs k _ (newModal action shot) 30);
      [rewrite Ho; reflexivity | rewrite Ho; reflexivity | lia]. }
  assert (Hm : safetyModal (uiSession pending) = Some (newModal action shot))
    by (rewrite Hp, Ho; reflexivity).
  assert (He : executorCalls pending = executorCalls w)
    by (rewrite Hp, Ho; reflexivity).
  destruct (approve_executes pending _ Hm) as [Ha Hn].
  fold approved in Ha, Hn. cbn [modal_action newModal] in Ha.
  rewrite He in Ha.
  destruct (idle_run evs approved Hn Hq) as (He' & _ & _).
  rewrite He', Ha. repeat split; try assumption.
  - apply render_idle_timeLeft. exact Hn.
  - apply idle_run_stream; assumption.
Qed.

Lemma approval_before_expiry_executes_once_witness :
  let a := parseFunctionCall confirmClick in
  let pending := run (opened a None (demoWorld (Some healthyRFB)))
                   (repeat SecondElapsed 12) in
  let approved := step pending ApproveClicked in
  executorCalls (run approved (repeat SecondElapsed 40)) = [a].
Proof.
  pose proof (approval_before_expiry_executes_once
                (demoWorld (Some healthyRFB))
                (parseFunctionCall confirmClick) None 12
                (repeat SecondElapsed 40)) as H.
  destruct H as (_ & _ & _ & H4 & _).
  - reflexivity.
  - reflexivity.
  - lia.
  - reflexivity.
  - exact H4.
Defined.

(** ** The classifier: where a keyword is found *)

(** [occurs k s]: the text [k] is a part of [s]. *)
Definition occurs (k s : string) : Prop :=
  exists pre post, s = pre ++ k ++ post.

Lemma sapp_assoc (a b c : string) : (a ++ b) ++ c = a ++ b ++ c.
Proof. induction a as [|x a IH]; simpl; [reflexivity | now rewrite IH]. Qed.

Lemma sapp_nil_r (a : string) : a ++ "" = a.
Proof. induction a as [|x a IH]; simpl; [reflexivity | now rewrite IH]. Qed.

Lemma occurs_refl k : occurs k k.
Proof. exists "", "". now rewrite sapp_nil_r. Qed.

Lemma occurs_app_r k x s : occurs k s -> occurs k (x ++ s).
Proof.
  intros (pre & post & ->). exists (x ++ pre), post. now rewrite sapp_assoc.
Qed.

Lemma occurs_app_l k s y : occurs k s -> occurs k (s ++ y).
Proof.
  intros (pre & post & ->). exists pre, (post ++ y).
  now rewrite !sapp_assoc.
Qed.

Lemma occurs_cons k c s : occurs k s -> occurs k (String c s).
Proof. apply (occurs_app_r k (String c "")). Qed.

(** Lower-casing carries an occurrence along. *)
Lemma occurs_toLowerCase K s :
  occurs K s -> occurs (toLowerCase K) (toLowerCase s).
Proof.
  intros (pre & post & ->). exists (toLowerCase pre), (toLowerCase post).
  now rewrite !toLowerCase_app.
Qed.

Lemma toLowerCase_inv_app (p q : string) : forall v,
  toLowerCase v = p ++ q ->
  exists a b, v = a ++ b /\ toLowerCase a = p /\ toLowerCase b = q.
Proof.
  induction p as [|c p IH]; intros v H.
  - exists "", v. repeat split. exact H.
  - destruct v as [|d v]; [discriminate|]. cbn in H. injection H as Hc Hv.
    destruct (IH v Hv) as (a & b & -> & Ha & Hb).
    exists (String d a), b. cbn. rewrite Ha, Hc. repeat split. exact Hb.
Qed.

(** An occurrence in the lower-cased text comes from an occurrence, in
    some case, in the text. *)
Lemma occurs_lowered k v :
  occurs k (toLowerCase v) ->
  exists K, occurs K v /\ toLowerCase K = k.
Proof.
  intros (p & q & H).
  destruct (toLowerCase_inv_app p (k ++ q) v H) as (a & rest & -> & _ & Hr).
  destruct (toLowerCase_inv_app k q rest Hr) as (K & b & -> & HK & _).
  exists K. split; [now exists a, b | exact HK].
Qed.

Lemma keyword_found (action : ComputerAction) (risk : string) :
  In risk highRiskActions ->
  occurs risk (actionStr action) ->
  getRiskLevel action = high.
Proof.
  intros Hin Hocc. unfold getRiskLevel.
  assert (He : existsb (fun r => includes (actionStr action) r)
                 highRiskActions = true).
  { apply existsb_exists. exists risk. split; [exact Hin|].
    apply includes_spec. exact Hocc. }
  now rewrite He.
Qed.

(** X16. A keyword anywhere in the action name, in any mix of upper
    and lower case, makes the level [high], whatever the arguments and
    whatever the decision of the model. *)
Theorem keyword_in_name_is_high_risk (action : ComputerAction) (risk : string) :
  In risk highRiskActions ->
  includes (toLowerCase (name action)) risk = true ->
  getRiskLevel action = high.
Proof.
  intros Hin Hinc. apply (keyword_found action risk Hin).
  apply includes_spec in Hinc. unfold actionStr.
  rewrite toLowerCase_app. apply occurs_app_l. exact Hinc.
Qed.

Lemma keyword_in_name_is_high_risk_witness :
  getRiskLevel {| name := "Resend_Invite"; args := [];
                  safetyDecision := None |} = high.
Proof.
  apply (keyword_in_name_is_high_risk
           {| name := "Resend_Invite"; args := []; safetyDecision := None |}
           "send").
  - cbn. tauto.
  - reflexivity.
Defined.

(** The members of an object as [JSON.stringify] writes them. *)
Fixpoint membersOf (l : list (string * JSValue)) : string :=
  match l with
  | [] => ""
  | [(k, x)] => quoteJSON k ++ ":" ++ JSON_stringify x
  | (k, x) :: rest =>
      quoteJSON k ++ ":" ++ JSON_stringify x ++ "," ++ membersOf rest
  end.

Lemma stringify_object (fields : list (string * JSValue)) :
  JSON_stringify (JObj fields) = "{" ++ membersOf fields ++ "}".
Proof. reflexivity. Qed.

Lemma member_occurs (key : string) (x : JSValue) :
  forall fields,
    In (key, x) fields -> occurs (JSON_stringify x) (membersOf fields).
Proof.
  induction fields as [|[k0 x0] rest IH]; intros Hin; [contradiction|].
  destruct Hin as [Heq | Hin].
  - injection Heq as -> ->.
    destruct rest as [|r rest]; cbn [membersOf].
    + apply occurs_app_r, occurs_app_r, occurs_refl.
    + apply occurs_app_r, occurs_app_r, occurs_app_l, occurs_refl.
  - specialize (IH Hin). destruct rest as [|r rest]; [contradiction|].
    change (membersOf ((k0, x0) :: r :: rest))
      with (quoteJSON k0 ++ ":" ++ JSON_stringify x0 ++ ","
              ++ membersOf (r :: rest)).
    do 4 apply occurs_app_r. exact IH.
Qed.

(** The characters of the keywords: small letters and the underscore. *)
Definition plain (c : ascii) : bool :=
  let n := nat_of_ascii c in
  (Nat.leb 97 n && Nat.leb n 122) || Nat.eqb n 95.

Fixpoint allPlain (s : string) : bool :=
  match s with
  | EmptyString => true
  | String c rest => plain c && allPlain rest
  end.

Lemma escapeChar_plain (c : ascii) :
  plain (lowerChar c) = true -> escapeChar c = String c "".
Proof.
  destruct c as [[] [] [] [] [] [] [] []]; intros H;
    first [discriminate H | reflexivity].
Qed.

Lemma escapeString_plain (K : string) :
  allPlain (toLowerCase K) = true -> escapeString K = K.
Proof.
  induction K as [|c K IH]; cbn [toLowerCase allPlain escapeString];
    [reflexivity|].
  intros H. apply andb_prop in H as [Hc HK].
  now rewrite (escapeChar_plain c Hc), (IH HK).
Qed.

Lemma escapeString_app (a b : string) :
  escapeString (a ++ b) = escapeString a ++ escapeString b.
Proof.
  induction a as [|c a IH]; cbn [append escapeString]; [reflexivity|].
  now rewrite IH, sapp_assoc.
Qed.

Lemma keywords_plain (risk : string) :
  In risk highRiskActions -> allPlain risk = true.
Proof.
  unfold highRiskActions. simpl.
  intros H. repeat (destruct H as [<- | H]; [reflexivity|]). contradiction.
Qed.

(** X17. The scan also reads the argument values: a text argument
    (the text to type, a URL, a label) in which a keyword occurs, in
    any mix of upper and lower case, makes the level [high], whatever
    the action is. *)
Theorem keyword_in_text_argument_is_high_risk
    (action : ComputerAction) (key v risk : string) :
  In risk highRiskActions ->
  In (key, JStr v) (args action) ->
  includes (toLowerCase v) risk = true ->
  getRiskLevel action = high.
Proof.
  intros Hin Harg Hinc. apply (keyword_found action risk Hin).
  apply includes_spec in Hinc.
  destruct (occurs_lowered risk v Hinc) as (K & (a & b & ->) & HK).
  subst risk. unfold actionStr. apply occurs_toLowerCase.
  rewrite stringify_object.
  do 3 apply occurs_app_r. apply occurs_app_l.
  destruct (member_occurs key _ _ Harg) as (pre & post & ->).
  apply occurs_app_r, occurs_app_l.
  cbn [JSON_stringify]. unfold quoteJSON.
  apply occurs_cons, occurs_app_l.
  rewrite !escapeString_app.
  rewrite (escapeString_plain K) by (apply keywords_plain; exact Hin).
  apply occurs_app_r, occurs_app_l, occurs_refl.
Qed.

Lemma keyword_in_text_argument_is_high_risk_witness :
  getRiskLevel {| name := "type_text_at";
                  args := [("x", JNum 1); ("y", JNum 2);
                           ("text", JStr "Please SEND the report")];
                  safetyDecision := None |} = high.
Proof.
  apply (keyword_in_text_argument_is_high_risk
           {| name := "type_text_at";
              args := [("x", JNum 1); ("y", JNum 2);
                       ("text", JStr "Please SEND the report")];
              safetyDecision := None |}
           "text" "Please SEND the report" "send").
  - cbn. tauto.
  - cbn. tauto.
  - reflexivity.
Defined.

(** ** Denormalization stays on the surface *)

Lemma exactPixel_formula (x w : Z) :
  exactPixel x w = (2 * x * w + 1000) / 2000.
Proof.
  cbv [exactPixel exactRound Qfloor Qplus Qmult Qdiv Qinv inject_Z Qnum Qden].
  change (Z.pos (1 * 1000 * 1 * 2)) with 2000.
  change (Z.pos (1 * 1000 * 1)) with 1000.
  f_equal. lia.
Qed.

Lemma default_surface_pixels (x y : Z) :
  0 <= x <= 999 ->
  0 <= y <= 999 ->
  denormalized x y 1440 900
  = (Some (exactPixel x 1440), Some (heightPixel900 y)).
Proof.
  intros Hx Hy. rewrite denormalized_axes.
  assert (Hw : checkAxis 1440 (fun x => exactPixel x 1440) 1000 = true)
    by (vm_compute; reflexivity).
  assert (Hh : checkAxis 900 heightPixel900 1000 = true)
    by (vm_compute; reflexivity).
  rewrite (checkAxis_sound 1440 _ 1000%nat Hw x) by lia.
  rewrite (checkAxis_sound 900 _ 1000%nat Hh y) by lia.
  reflexivity.
Qed.

Lemma heightPixel900_bounds (y : Z) :
  0 <= y <= 999 ->
  (2 * y * 900 - 1000) <= 2000 * heightPixel900 y <= 2 * y * 900 + 1000.
Proof.
  intros Hy. unfold heightPixel900.
  destruct (Z.eqb_spec y 565) as [E|E].
  - subst. lia.
  - rewrite exactPixel_formula.
    pose proof (Z.div_mod (2 * y * 900 + 1000) 2000 ltac:(lia)) as Hd.
    pose proof (Z.mod_pos_bound (2 * y * 900 + 1000) 2000 ltac:(lia)) as Hm.
    lia.
Qed.

(** X18. On the default 1440 x 900 surface the denormalized pixel of
    an integer pair in [0, 999]^2 always lies on the surface, columns
    0 to 1439 and rows 0 to 899, and denormalization keeps the order:
    a coordinate further right or further down never gives a pixel
    further left or further up. *)
Theorem denormalization_stays_on_surface (x x' y y' : Z) :
  0 <= x <= x' ->
  x' <= 999 ->
  0 <= y <= y' ->
  y' <= 999 ->
  exists px py px' py',
    denormalized x y 1440 900 = (Some px, Some py) /\
    denormalized x' y' 1440 900 = (Some px', Some py') /\
    0 <= px <= px' /\ px' <= 1439 /\
    0 <= py <= py' /\ py' <= 899.
Proof.
  intros Hx Hx' Hy Hy'.
  exists (exactPixel x 1440), (heightPixel900 y),
         (exactPixel x' 1440), (heightPixel900 y').
  rewrite !default_surface_pixels by lia.
  split; [reflexivity|]. split; [reflexivity|].
  rewrite !exactPixel_formula.
  pose proof (heightPixel900_bounds y ltac:(lia)) as By.
  pose proof (heightPixel900_bounds y' ltac:(lia)) as By'.
  assert (Hpx : 0 <= (2 * x * 1440 + 1000) / 2000)
    by (apply Z.div_pos; lia).
  assert (Hmono : (2 * x * 1440 + 1000) / 2000
                  <= (2 * x' * 1440 + 1000) / 2000)
    by (apply Z.div_le_mono; lia).
  assert (Hmax : (2 * x' * 1440 + 1000) / 2000 <= 1439).
  { apply Z.lt_succ_r, Z.div_lt_upper_bound; lia. }
  repeat split; try lia.
  - destruct (Z.eq_dec y y') as [->|Hne]; [lia|].
    assert (Hlt : y + 1 <= y') by lia.
    unfold heightPixel900 in *.
    destruct (Z.eqb_spec y 565) as [E|E], (Z.eqb_spec y' 565) as [E'|E'].
    + lia.
    + subst y. rewrite exactPixel_formula.
      apply Z.div_le_lower_bound; lia.
    + subst y'. rewrite exactPixel_formula.
      apply Z.lt_succ_r, Z.div_lt_upper_bound; lia.
    + rewrite !exactPixel_formula. apply Z.div_le_mono; lia.
Qed.

Lemma denormalization_stays_on_surface_witness :
  exists px py px' py',
    denormalized 0 0 1440 900 = (Some px, Some py) /\
    denormalized 999 999 1440 900 = (Some px', Some py') /\
    0 <= px <= px' /\ px' <= 1439 /\
    0 <= py <= py' /\ py' <= 899.
Proof.
  apply (denormalization_stays_on_surface 0 999 0 999); lia.
Defined.

(** ** The screenshot a submission works with *)

#[export] Instance Control_currentScreenshot : Control currentScreenshot.
Proof. split; reflexivity. Qed.






















(** ** The task planner ([TaskPlanner]), which submits the tasks *)

Record File : Type := {
  file_name : string;
  file_type : string;
  file_size : Z
}.

(** The state of the form: the text typed and the files attached. *)
Record Planner : Type := {
  task : string;
  attachments : list File
}.






(** [handleFileUpload]: the chosen files are appended. *)
Definition handleFileUpload (files : list File) (p : Planner) : Planner :=
  {| task := task p; attachments := attachments p ++ files |}.

(** [prev.filter((_, i) => i !== index)] *)
Fixpoint filterIndex {A} (keep : nat -> bool) (i : nat) (l : list A) : list A :=
  match l with
  | [] => []
  | a :: rest =>
      if keep i then a :: filterIndex keep (S i) rest
      else filterIndex keep (S i) rest
  end.

Definition removeAttachment (index : nat) (p : Planner) : Planner :=
  {| task := task p;
     attachments :=
       filterIndex (fun i => negb (Nat.eqb i index)) 0 (attachments p) |}.










Lemma filterIndex_remove {A} (index : nat) (l : list A) : forall i,
  (i <= index)%nat ->
  filterIndex (fun j => negb (Nat.eqb j index)) i l
  = (firstn (index - i) l ++ skipn (S (index - i)) l)%list.
Proof.
  induction l as [|a l IH]; intros i Hi.
  - cbn. now rewrite firstn_nil.
  - cbn [filterIndex]. destruct (Nat.eqb_spec i index) as [->|Hne].
    + cbn [negb]. rewrite Nat.sub_diag. cbn [firstn skipn app].
      clear IH Hi. revert index.
      induction l as [|b l IHl]; intros index; [reflexivity|].
      cbn [filterIndex].
      destruct (Nat.eqb_spec (S index) index) as [E|_]; [lia|].
      cbn [negb]. f_equal.
      assert (Hgen : forall (m : list A) i, (index < i)%nat ->
                filterIndex (fun j => negb (Nat.eqb j index)) i m = m).
      { induction m as [|c m IHm]; intros i Hlt; [reflexivity|].
        cbn [filterIndex].
        destruct (Nat.eqb_spec i index) as [E|_]; [lia|].
        cbn [negb]. f_equal. apply IHm. lia. }
      apply Hgen. lia.
    + cbn [negb]. rewrite IH by lia.
      replace (index - i)%nat with (S (index - S i)) by lia.
      reflexivity.
Qed.

(** X21. Removing an attachment by its position removes that file and
    no other: the files before and after it stay, in order, and a
    position past the end removes nothing.  In particular, removing
    the file just uploaded gives back the list as it was. *)
Theorem removeAttachment_removes_that_file (index : nat) (p : Planner) :
  attachments (removeAttachment index p)
    = (firstn index (attachments p)
         ++ skipn (S index) (attachments p))%list /\
  task (removeAttachment index p) = task p /\
  ((List.length (attachments p) <= index)%nat ->
     removeAttachment index p = p) /\
  (forall f : File,
     removeAttachment (List.length (attachments p)) (handleFileUpload [f] p)
     = p).
Proof.
  assert (H : forall q, attachments (removeAttachment index q)
                = (firstn index (attachments q)
                     ++ skipn (S index) (attachments q))%list).
  { intros q. unfold removeAttachment. cbn [attachments].
    rewrite (filterIndex_remove index (attachments q) 0%nat) by lia.
    now rewrite Nat.sub_0_r. }
  split; [apply H|]. split; [reflexivity|]. split.
  - intros Hlen. destruct p as [t l]. unfold removeAttachment.
    cbn [task attachments] in *. f_equal.
    rewrite (filterIndex_remove index l 0%nat) by lia.
    rewrite Nat.sub_0_r, firstn_all2 by lia.
    rewrite skipn_all2 by lia. apply app_nil_r.
  - intros f. destruct p as [t l].
    unfold removeAttachment, handleFileUpload. cbn [task attachments].
    f_equal.
    rewrite (filterIndex_remove (List.length l) (l ++ [f]) 0%nat) by lia.
    rewrite Nat.sub_0_r.
    rewrite firstn_app, Nat.sub_diag, firstn_all. cbn [firstn].
    rewrite app_nil_r.
    rewrite skipn_all2 by (rewrite length_app; cbn; lia).
    apply app_nil_r.
Qed.

Lemma removeAttachment_removes_that_file_witness :
  let f := {| file_name := "a.png"; file_type := "image/png";
              file_size := 10 |} in
  let p := {| task := "t"; attachments := [f] |} in
  removeAttachment 3 p = p.
Proof.
  exact (proj1 (proj2 (proj2 (removeAttachment_removes_that_file 3
           {| task := "t";
              attachments := [{| file_name := "a.png";
                                 file_type := "image/png";
                                 file_size := 10 |}] |})))
           ltac:(cbn; lia)).
Defined.

(** ** The vision overlay of the viewport ([VNCViewport]) *)

Record VisionBox : Type := {
  box_x : Z;
  box_y : Z;
  box_width : Z;
  box_height : Z;
  box_label : string;
  confidence : Q
}.

(** [visionBoxes] and [agentCursor], the state the effect writes. *)
Record Overlay : Type := {
  visionBoxes : list VisionBox;
  agentCursor : option (Z * Z)
}.

Definition cleared : Overlay := {| visionBoxes := []; agentCursor := None |}.

(** [agentActions[agentActions.length - 1]] *)
Definition latestOf (agentActions : list ComputerAction)
    : option ComputerAction :=
  last (map Some agentActions) None.

(** The effect that follows [agentActions] and [visionOverlay]; a
    state setter that is not called leaves its state as it is. *)
Definition updateOverlay (visionOverlay : bool)
    (agentActions : list ComputerAction) (o : Overlay) : Overlay :=
  if negb visionOverlay || (Nat.eqb (List.length agentActions) 0) then cleared
  else
    match latestOf agentActions with
    | None => cleared
    | Some latestAction =>
        if decisionIs latestAction blocked then
          {| visionBoxes := []; agentCursor := agentCursor o |}
        else
          let n := name latestAction in
          let arg k := getProp k (args latestAction) in
          if (n === "click_at") || (n === "hover_at") then
            match arg "x", arg "y" with
            | Some (JNum x), Some (JNum y) =>
                {| visionBoxes :=
                     [{| box_x := x - 20; box_y := y - 20;
                         box_width := 40; box_height := 40;
                         box_label := "Target"; confidence := 9 # 10 |}];
                   agentCursor := Some (x, y) |}
            | _, _ => o
            end
          else if n === "type_text_at" then
            match arg "x", arg "y" with
            | Some (JNum textX), Some (JNum textY) =>
                {| visionBoxes :=
                     [{| box_x := textX - 30; box_y := textY - 10;
                         box_width := 60; box_height := 20;
                         box_label := "Input Field"; confidence := 8 # 10 |}];
                   agentCursor := agentCursor o |}
            | _, _ => o
            end
          else if (n === "scroll_at") || (n === "scroll_document") then
            let direction := arg "direction" in
            {| visionBoxes :=
                 [{| box_x := 0;
                     box_y := match direction with
                              | Some (JStr d) =>
                                  if d === "down" then 800 else 0
                              | _ => 0
                              end;
                     box_width := 1000; box_height := 200;
                     box_label := "Scroll " ++ interpolate direction;
                     confidence := 7 # 10 |}];
               agentCursor := agentCursor o |}
          else cleared
    end.

Lemma latestOf_snoc l a : latestOf (l ++ [a]) = Some a.
Proof. unfold latestOf. rewrite map_app. cbn [map]. apply last_last. Qed.

(** X22. The overlay follows the latest action only: the actions
    before it never matter.  When the latest action is blocked no box
    is drawn, whatever the action is, and the cursor stays where it
    was; a click or hover at numeric coordinates draws one 40 x 40 box
    centred on the point and moves the cursor there. *)
Theorem overlay_follows_latest_action
    (visionOverlay : bool) (l : list ComputerAction) (a : ComputerAction)
    (o : Overlay) :
  updateOverlay visionOverlay (l ++ [a]) o
    = updateOverlay visionOverlay [a] o /\
  (visionOverlay = true -> decisionIs a blocked = true ->
     updateOverlay visionOverlay (l ++ [a]) o
     = {| visionBoxes := []; agentCursor := agentCursor o |}) /\
  (forall x y,
     visionOverlay = true -> decisionIs a blocked = false ->
     (name a === "click_at") || (name a === "hover_at") = true ->
     getProp "x" (args a) = Some (JNum x) ->
     getProp "y" (args a) = Some (JNum y) ->
     exists box,
       updateOverlay visionOverlay (l ++ [a]) o
       = {| visionBoxes := [box]; agentCursor := Some (x, y) |} /\
       2 * box_x box + box_width box = 2 * x /\
       2 * box_y box + box_height box = 2 * y /\
       box_width box = 40 /\ box_height box = 40).
Proof.
  assert (Hlen : Nat.eqb (List.length (l ++ [a])) 0 = false)
    by (rewrite length_app; cbn; apply Nat.eqb_neq; lia).
  assert (H1 : updateOverlay visionOverlay (l ++ [a]) o
               = updateOverlay visionOverlay [a] o).
  { unfold updateOverlay. rewrite Hlen, latestOf_snoc. reflexivity. }
  split; [exact H1|]. rewrite H1. split.
  - intros -> Hb. unfold updateOverlay.
    change (latestOf [a]) with (Some a).
    cbn [negb orb List.length Nat.eqb]. now rewrite Hb.
  - intros x y -> Hb Hn Hx Hy. unfold updateOverlay.
    change (latestOf [a]) with (Some a).
    cbn [negb orb List.length Nat.eqb].
    rewrite Hb, Hn, Hx, Hy. eexists. split; [reflexivity|].
    cbn [box_x box_y box_width box_height]. repeat split; lia.
Qed.

Lemma overlay_follows_latest_action_witness :
  updateOverlay true
    [parseFunctionCall allowedClick; parseFunctionCall blockedClick]
    {| visionBoxes := []; agentCursor := Some (30, 40) |}
  = {| visionBoxes := []; agentCursor := Some (30, 40) |}.
Proof.
  exact (proj1 (proj2 (overlay_follows_latest_action true
                         [parseFunctionCall allowedClick]
                         (parseFunctionCall blockedClick)
                         {| visionBoxes := [];
                            agentCursor := Some (30, 40) |}))
           eq_refl eq_refl).
Defined.

(** ** Grouping the stream for display ([ThoughtStream]) *)

From Stdlib Require Import Permutation.

Section Grouping.

(** [new Date(timestamp).toLocaleTimeString()]: the label of a time,
    which depends on the locale. *)
Variable toLocaleTimeString : Z -> string.

Definition timeKey (entry : AIAction) : string :=
  toLocaleTimeString (timestamp entry).

(** [groups[timeKey].push(action)], after [groups[timeKey] = []] when
    the key is new.  The object is the list of its keys with their
    arrays, in the order in which the keys were added (the keys are
    time labels: none is an array index or a property that every
    object inherits). *)
Fixpoint pushTo (key : string) (entry : AIAction)
    (groups : list (string * list AIAction)) : list (string * list AIAction) :=
  match groups with
  | [] => [(key, [entry])]
  | (k, entries) :: rest =>
      if k === key then (k, (entries ++ [entry])%list) :: rest
      else (k, entries) :: pushTo key entry rest
  end.

(** [actions.reduce((groups, action) => ..., {})] *)
Definition groupedActions (entries : list AIAction)
    : list (string * list AIAction) :=
  fold_left (fun groups entry => pushTo (timeKey entry) entry groups)
    entries [].

Definition shown_entries (groups : list (string * list AIAction))
    : list AIAction :=
  List.concat (map snd groups).

Lemma groupedActions_snoc l entry :
  groupedActions (l ++ [entry])
  = pushTo (timeKey entry) entry (groupedActions l).
Proof. unfold groupedActions. now rewrite fold_left_app. Qed.

Lemma pushTo_perm key entry groups :
  Permutation (shown_entries (pushTo key entry groups))
              (shown_entries groups ++ [entry]).
Proof.
  unfold shown_entries.
  induction groups as [|[k es] rest IH]; cbn [pushTo map List.concat snd].
  - reflexivity.
  - destruct (k === key); cbn [map List.concat snd].
    + rewrite <- !app_assoc. apply Permutation_app_head.
      apply Permutation_app_comm.
    + rewrite <- app_assoc. apply Permutation_app_head. exact IH.
Qed.

Lemma pushTo_keys key entry groups :
  map fst (pushTo key entry groups)
  = if existsb (fun k => k === key) (map fst groups) then map fst groups
    else (map fst groups ++ [key])%list.
Proof.
  induction groups as [|[k es] rest IH]; cbn [pushTo map fst existsb];
    [reflexivity|].
  destruct (k === key); cbn [map fst orb]; [reflexivity|].
  rewrite IH. destruct (existsb _ (map fst rest)); reflexivity.
Qed.

Lemma pushTo_in key entry groups k es :
  NoDup (map fst groups) ->
  In (k, es) (pushTo key entry groups) ->
  (k <> key /\ In (k, es) groups) \/
  (k = key /\ exists es0, In (k, es0) groups /\ es = (es0 ++ [entry])%list) \/
  (k = key /\ es = [entry] /\ ~ In key (map fst groups)).
Proof.
  induction groups as [|[k0 es0] rest IH]; intros Hnd Hin.
  - cbn in Hin. destruct Hin as [Heq|[]]. injection Heq as <- <-.
    right. right. repeat split. intros [].
  - cbn [map fst] in Hnd. inversion Hnd as [|? ? Hnotin Hnd']; subst.
    cbn [pushTo] in Hin. destruct (String.eqb_spec k0 key) as [->|Hne].
    + destruct Hin as [Heq | Hin].
      * injection Heq as <- <-. right. left. split; [reflexivity|].
        exists es0. split; [left; reflexivity | reflexivity].
      * left. split; [|right; exact Hin].
        intros ->. apply Hnotin. apply in_map_iff. exists (key, es).
        split; [reflexivity | exact Hin].
    + destruct Hin as [Heq | Hin].
      * injection Heq as <- <-. left. split; [exact Hne | left; reflexivity].
      * destruct (IH Hnd' Hin) as [[Hk H] | [[Hk (e0 & H & He)] | (Hk & He & Hn)]].
        -- left. split; [exact Hk | right; exact H].
        -- right. left. split; [exact Hk|]. exists e0.
           split; [right; exact H | exact He].
        -- right. right. repeat split; try assumption.
           cbn [map fst]. intros [Heq | H]; [congruence | exact (Hn H)].
Qed.

Lemma groupedActions_keys l :
  NoDup (map fst (groupedActions l)) /\
  (forall entry, In entry l -> In (timeKey entry) (map fst (groupedActions l))).
Proof.
  induction l as [|entry l [IHn IHk]] using rev_ind.
  - split; [constructor | intros e []].
  - rewrite groupedActions_snoc, pushTo_keys.
    destruct (existsb _ (map fst (groupedActions l))) eqn:E.
    + split; [exact IHn|]. intros e Hin. apply in_app_or in Hin.
      destruct Hin as [Hin | [<- | []]]; [apply IHk; exact Hin|].
      apply existsb_exists in E. destruct E as (k & Hk & Heq).
      apply String.eqb_eq in Heq. now subst.
    + split.
      * apply NoDup_app; [exact IHn | repeat constructor; intros [] |].
        intros k Hk [<- | []].
        assert (Ht : existsb (fun k0 => k0 === timeKey entry)
                       (map fst (groupedActions l)) = true)
          by (apply existsb_exists; exists (timeKey entry);
              split; [exact Hk | apply String.eqb_refl]).
        congruence.
      * intros e Hin. apply in_or_app. apply in_app_or in Hin.
        destruct Hin as [Hin | [<- | []]];
          [left; apply IHk; exact Hin | right; left; reflexivity].
Qed.

(** X23. Grouping the stream by time label loses nothing and
    invents nothing: the entries displayed are the entries of the
    stream, each once.  Every label heads one group only, and a group
    holds exactly the entries of the stream with its label, in the
    order of the stream; no group is empty. *)
Theorem grouping_partitions_stream (entries : list AIAction) :
  Permutation (shown_entries (groupedActions entries)) entries /\
  NoDup (map fst (groupedActions entries)) /\
  (forall k es,
     In (k, es) (groupedActions entries) ->
     es = filter (fun e => timeKey e === k) entries /\ es <> []).
Proof.
  split; [|split].
  - induction entries as [|entry l IH] using rev_ind; [reflexivity|].
    rewrite groupedActions_snoc.
    rewrite pushTo_perm. apply Permutation_app_tail. exact IH.
  - apply groupedActions_keys.
  - induction entries as [|entry l IH] using rev_ind; [intros k es []|].
    intros k es Hin. rewrite groupedActions_snoc in Hin.
    destruct (groupedActions_keys l) as [Hnd Hkeys].
    rewrite filter_app. cbn [filter].
    destruct (pushTo_in _ _ _ _ _ Hnd Hin)
      as [[Hk H] | [[Hk (e0 & H & He)] | (Hk & He & Hn)]].
    + destruct (IH k es H) as [Hes Hne].
      apply not_eq_sym in Hk. apply String.eqb_neq in Hk. rewrite Hk.
      rewrite app_nil_r. split; assumption.
    + destruct (IH k e0 H) as [Hes _]. subst k.
      rewrite String.eqb_refl. subst es e0.
      split; [reflexivity|]. intros Hnil. apply app_eq_nil in Hnil.
      destruct Hnil as [_ Hnil]. discriminate.
    + subst k es. rewrite String.eqb_refl.
      assert (Hempty : filter (fun e => timeKey e === timeKey entry) l = []).
      { destruct (filter _ l) as [|e rest] eqn:Ef; [reflexivity|].
        assert (Hine : In e (filter (fun e => timeKey e === timeKey entry) l))
          by (rewrite Ef; left; reflexivity).
        apply filter_In in Hine. destruct Hine as [Hl Hte].
        apply String.eqb_eq in Hte. exfalso. apply Hn.
        rewrite <- Hte. apply Hkeys. exact Hl. }
      rewrite Hempty. split; [reflexivity | discriminate].
Qed.

End Grouping.
